(** * A schema-validated data-access layer over a document store

    Shallow embedding of [src/mongodb/connection.ts] (the connection
    lifecycle manager and the module-level singleton) and of
    [src/mongodb/crud.ts] (the generic CRUD engine), followed by the
    properties of the specification, each settled against the embedding.

    JavaScript runs one task at a time and a task only gives up control at
    an [await].  An [async] call is therefore modelled as a task that moves
    from one suspension point to the next in a single step; the order in
    which suspended tasks are resumed is left to the schedule. *)

From Stdlib Require Import ZArith Lia.
From stdpp Require Import gmap strings list fin_maps pretty.

Local Open Scope string_scope.

(** * Part I: the connection lifecycle manager ([connection.ts]) *)

Module Connection.

(** [MongoClientOptions] is a plain object of driver settings; the three
    settings the manager sets are numbers. *)
Record MongoConnectionConfig := mkConfig {
  uri : string;
  dbName : string;
  options : gmap string Z;
}.

(** [Partial<MongoConnectionConfig>]: every field may be missing. *)
Record PartialConfig := mkPartial {
  p_uri : option string;
  p_dbName : option string;
  p_options : option (gmap string Z);
}.

(** The two environment variables read by the constructor. *)
Record Env := mkEnv {
  MONGODB_URI : option string;
  MONGODB_DB_NAME : option string;
}.

(** [a || b] on an optional string: [undefined] and the empty string are
    falsy. *)
Definition or_else (a : option string) (b : string) : string :=
  match a with
  | Some s => if decide (s = "") then b else s
  | None => b
  end.

Definition defaultOptions : gmap string Z :=
  <["maxPoolSize" := 10%Z]> (<["serverSelectionTimeoutMS" := 5000%Z]>
    (<["socketTimeoutMS" := 45000%Z]> ∅)).

(** The constructor's [this.config = { ... }]; [config?.x] of a missing
    [config] is [undefined], and the spread of the caller's options comes
    last, so it overrides the defaults. *)
Definition resolveConfig (env : Env) (config : option PartialConfig)
  : MongoConnectionConfig :=
  {| uri := or_else (config ≫= p_uri)
              (or_else (MONGODB_URI env) "mongodb://localhost:27017");
     dbName := or_else (config ≫= p_dbName)
                 (or_else (MONGODB_DB_NAME env) "test");
     options := default ∅ (config ≫= p_options) ∪ defaultOptions |}.

(** A [MongoClient] object is identified by the order of its
    construction; [client.db(name)] is the handle on database [name]
    through that client. *)
Definition Client := nat.

Record Db := mkDb { db_client : Client; db_name : string }.

#[global] Instance Db_eq_dec : EqDecision Db.
Proof. solve_decision. Defined.

(** The fields of [MongoConnectionManager]. *)
Record Manager := mkManager {
  client : option Client;
  db : option Db;
  config : MongoConnectionConfig;
  isConnected : bool;
  isConnecting : bool;
}.

Definition new_MongoConnectionManager (env : Env)
    (cfg : option PartialConfig) : Manager :=
  {| client := None; db := None; config := resolveConfig env cfg;
     isConnected := false; isConnecting := false |}.

Definition notEstablished : string :=
  "MongoDB connection not established. Call connect() first.".

(** [getDb()] and [getClient()]: [inl] is the message of the thrown
    [Error]. *)
Definition getDb (m : Manager) : string + Db :=
  match db m with
  | Some d => if isConnected m then inr d else inl notEstablished
  | None => inl notEstablished
  end.

Definition getClient (m : Manager) : string + Client :=
  match client m with
  | Some c => if isConnected m then inr c else inl notEstablished
  | None => inl notEstablished
  end.

Definition isConnectionActive (m : Manager) : bool :=
  isConnected m && bool_decide (client m ≠ None) && bool_decide (db m ≠ None).

(** [ping()]: [admin_ping] is the outcome of [db.admin().ping()], [true]
    when it resolves and [false] when it rejects. *)
Definition ping (m : Manager) (admin_ping : bool) : bool :=
  if negb (isConnected m) || bool_decide (db m = None) then false
  else admin_ping.

(** ** The process: tasks, signal listeners, termination *)

Inductive Signal := SIGINT | SIGTERM | SIGQUIT.

#[global] Instance Signal_eq_dec : EqDecision Signal.
Proof. solve_decision. Defined.

(** How the process ended: [process.exit(code)], or the default action of
    a signal nobody listens to. *)
Inductive Exit := Exited (code : Z) | Killed (s : Signal).

(** An [async] call between two suspension points, or settled. *)
Inductive Task :=
| ConnectPolling
    (* connect(): in the [while (this.isConnecting)] loop, on the timer *)
| ConnectAwaiting
    (* connect(): on [await this.client.connect()] *)
| ConnectResolved (d : Db)
| ConnectRejected (msg : string)
| DisconnectClosing
    (* disconnect(): on [await this.client.close()] *)
| DisconnectResolved
| DisconnectRejected (msg : string)
| ShutdownClosing
    (* shutdown(): inside disconnect(), on [await this.client.close()] *)
| ShutdownPending (r : option string)
    (* shutdown(): on [await this.disconnect()], which settled with [r] *)
| ShutdownExited.

Record Proc := mkProc {
  mgr : Manager;
  tasks : list Task;          (* every async call made so far, by index *)
  listeners : list Signal;    (* process.on(s, shutdown), in order *)
  clientsMade : nat;          (* [new MongoClient] so far *)
  connectAttempts : nat;      (* [client.connect()] calls issued *)
  closeCalls : nat;           (* [client.close()] calls issued *)
  shutdownRuns : nat;         (* invocations of the [shutdown] closure *)
  exited : option Exit;
}.

Definition boot (m : Manager) : Proc :=
  {| mgr := m; tasks := []; listeners := []; clientsMade := 0;
     connectAttempts := 0; closeCalls := 0; shutdownRuns := 0;
     exited := None |}.

Definition set_task (i : nat) (t : Task) (p : Proc) : Proc :=
  {| mgr := mgr p; tasks := <[i := t]> (tasks p); listeners := listeners p;
     clientsMade := clientsMade p; connectAttempts := connectAttempts p;
     closeCalls := closeCalls p; shutdownRuns := shutdownRuns p;
     exited := exited p |}.

Definition set_mgr (m : Manager) (p : Proc) : Proc :=
  {| mgr := m; tasks := tasks p; listeners := listeners p;
     clientsMade := clientsMade p; connectAttempts := connectAttempts p;
     closeCalls := closeCalls p; shutdownRuns := shutdownRuns p;
     exited := exited p |}.

Definition spawn (t : Task) (p : Proc) : Proc :=
  {| mgr := mgr p; tasks := tasks p ++ [t]; listeners := listeners p;
     clientsMade := clientsMade p; connectAttempts := connectAttempts p;
     closeCalls := closeCalls p; shutdownRuns := shutdownRuns p;
     exited := exited p |}.

(** ** connect() *)

(** Lines 44-48, where [new MongoClient] returns: raise the in-flight
    flag, build a client and issue the connection attempt.  The result is
    the process with the attempt in flight; the calling task is then
    [ConnectAwaiting].  Where the constructor throws instead, see
    [connect_refused] below. *)
Definition connect_attempt (p : Proc) : Proc :=
  let m := mgr p in
  {| mgr := {| client := Some (clientsMade p); db := db m; config := config m;
               isConnected := isConnected m; isConnecting := true |};
     tasks := tasks p; listeners := listeners p;
     clientsMade := S (clientsMade p);
     connectAttempts := S (connectAttempts p);
     closeCalls := closeCalls p; shutdownRuns := shutdownRuns p;
     exited := exited p |}.

(** What connect() does from line 39 on, once it is not (or no longer)
    waiting: return the handle another attempt left behind, or start an
    attempt of its own. *)
Definition connect_after_wait (i : nat) (p : Proc) : Proc :=
  match db (mgr p) with
  | Some d => set_task i (ConnectResolved d) p
  | None => set_task i ConnectAwaiting (connect_attempt p)
  end.

(** A call of connect(), up to its first suspension (or its return). *)
Definition connect_call (p : Proc) : Proc :=
  let i := length (tasks p) in
  let p := spawn ConnectPolling p in
  match db (mgr p) with
  | Some d =>
      if isConnected (mgr p) then set_task i (ConnectResolved d) p
      else if isConnecting (mgr p) then p
      else set_task i ConnectAwaiting (connect_attempt p)
  | None =>
      if isConnecting (mgr p) then p
      else set_task i ConnectAwaiting (connect_attempt p)
  end.

(** The 100ms timer of a polling caller fires: re-test the loop
    condition. *)
Definition connect_wake (i : nat) (p : Proc) : Proc :=
  if isConnecting (mgr p) then p else connect_after_wait i p.

(** [setupShutdownHandlers()]: one more registration of the closure on
    each of the three signals. *)
Definition setupShutdownHandlers (p : Proc) : Proc :=
  {| mgr := mgr p; tasks := tasks p;
     listeners := listeners p ++ [SIGINT; SIGTERM; SIGQUIT];
     clientsMade := clientsMade p; connectAttempts := connectAttempts p;
     closeCalls := closeCalls p; shutdownRuns := shutdownRuns p;
     exited := exited p |}.

Definition connectFailed (cause : string) : string :=
  "Failed to connect to MongoDB: " ++ cause.

Definition lower_flag (m : Manager) : Manager :=
  {| client := client m; db := db m; config := config m;
     isConnected := isConnected m; isConnecting := false |}.

(** [await this.client.connect()] settles: [None] when the driver
    connected, [Some cause] when it rejected with an error whose message
    (or string rendering) is [cause].  [this.client] is read again after
    the await; when a disconnect() has cleared it meanwhile, the property
    access throws inside the [try]. *)
Definition connect_settle (i : nat) (r : option string) (p : Proc) : Proc :=
  let m := mgr p in
  match r with
  | Some cause =>
      set_task i (ConnectRejected (connectFailed cause))
        (set_mgr (lower_flag m) p)
  | None =>
      match client m with
      | None =>
          set_task i
            (ConnectRejected
               (connectFailed "Cannot read properties of null (reading 'db')"))
            (set_mgr (lower_flag m) p)
      | Some c =>
          let d := mkDb c (dbName (config m)) in
          set_task i (ConnectResolved d)
            (setupShutdownHandlers
               (set_mgr {| client := Some c; db := Some d; config := config m;
                           isConnected := true; isConnecting := false |} p))
      end
  end.

(** ** disconnect() *)

Definition bump_close (p : Proc) : Proc :=
  {| mgr := mgr p; tasks := tasks p; listeners := listeners p;
     clientsMade := clientsMade p; connectAttempts := connectAttempts p;
     closeCalls := S (closeCalls p); shutdownRuns := shutdownRuns p;
     exited := exited p |}.

Definition disconnect_call (p : Proc) : Proc :=
  match client (mgr p) with
  | Some _ => spawn DisconnectClosing (bump_close p)
  | None => spawn DisconnectResolved p
  end.

(** Lines 66-68, after [close()] resolved. *)
Definition forget (m : Manager) : Manager :=
  {| client := None; db := None; config := config m;
     isConnected := false; isConnecting := isConnecting m |}.

(** ** The shutdown closure and process.exit *)

Definition bump_shutdown (p : Proc) : Proc :=
  {| mgr := mgr p; tasks := tasks p; listeners := listeners p;
     clientsMade := clientsMade p; connectAttempts := connectAttempts p;
     closeCalls := closeCalls p; shutdownRuns := S (shutdownRuns p);
     exited := exited p |}.

(** One invocation of [shutdown], up to its first suspension. *)
Definition shutdown_call (p : Proc) : Proc :=
  let p := bump_shutdown p in
  match client (mgr p) with
  | Some _ => spawn ShutdownClosing (bump_close p)
  | None => spawn (ShutdownPending None) p
  end.

Definition process_exit (code : Z) (p : Proc) : Proc :=
  {| mgr := mgr p; tasks := tasks p; listeners := listeners p;
     clientsMade := clientsMade p; connectAttempts := connectAttempts p;
     closeCalls := closeCalls p; shutdownRuns := shutdownRuns p;
     exited := Some (Exited code) |}.

Definition killed_by (s : Signal) (p : Proc) : Proc :=
  {| mgr := mgr p; tasks := tasks p; listeners := listeners p;
     clientsMade := clientsMade p; connectAttempts := connectAttempts p;
     closeCalls := closeCalls p; shutdownRuns := shutdownRuns p;
     exited := Some (Killed s) |}.

(** The listeners of a signal are called one after the other, each up to
    its first suspension, before anything else runs. *)
Fixpoint emit (s : Signal) (ls : list Signal) (p : Proc) : Proc :=
  match ls with
  | [] => p
  | l :: ls => emit s ls (if decide (l = s) then shutdown_call p else p)
  end.

Definition registrations (s : Signal) (ls : list Signal) : nat :=
  length (filter (λ l, l = s) ls).

Definition deliver (s : Signal) (p : Proc) : Proc :=
  if decide (registrations s (listeners p) = 0) then killed_by s p
  else emit s (listeners p) p.

(** [await this.client.close()] settles for task [i]. *)
Definition close_settle (i : nat) (r : option string) (p : Proc) : Proc :=
  match tasks p !! i with
  | Some DisconnectClosing =>
      match r with
      | None => set_task i DisconnectResolved (set_mgr (forget (mgr p)) p)
      | Some e => set_task i (DisconnectRejected e) p
      end
  | Some ShutdownClosing =>
      match r with
      | None => set_task i (ShutdownPending None) (set_mgr (forget (mgr p)) p)
      | Some e => set_task i (ShutdownPending (Some e)) p
      end
  | _ => p
  end.

(** [shutdown] continues after [await this.disconnect()]. *)
Definition shutdown_resume (i : nat) (r : option string) (p : Proc) : Proc :=
  match r with
  | None => process_exit 0 (set_task i ShutdownExited p)
  | Some _ => process_exit 1 (set_task i ShutdownExited p)
  end.

(** ** connect() when the driver refuses to build the client *)

(** Lines 44-47 and 57-59 when [new MongoClient(uri, options)] throws an
    error of message [cause] (a connection string or an option the driver
    does not accept): the flag has been raised, nothing is assigned to
    [this.client], no attempt is issued, and the [catch] lowers the flag
    and rejects the caller. *)
Definition connect_refused (i : nat) (cause : string) (p : Proc) : Proc :=
  set_task i (ConnectRejected (connectFailed cause))
    (set_mgr (lower_flag (mgr p)) p).

(** connect() called, and a polling caller waking, where the constructor
    throws if it is reached. *)
Definition connect_call_throwing (cause : string) (p : Proc) : Proc :=
  let i := length (tasks p) in
  let p := spawn ConnectPolling p in
  match db (mgr p) with
  | Some d =>
      if isConnected (mgr p) then set_task i (ConnectResolved d) p
      else if isConnecting (mgr p) then p
      else connect_refused i cause p
  | None =>
      if isConnecting (mgr p) then p
      else connect_refused i cause p
  end.

Definition connect_wake_throwing (i : nat) (cause : string) (p : Proc)
    : Proc :=
  if isConnecting (mgr p) then p
  else match db (mgr p) with
       | Some d => set_task i (ConnectResolved d) p
       | None => connect_refused i cause p
       end.

(** ** Schedules *)

(** The last two events are [CallConnect] and [TimerFires] in an
    environment where [new MongoClient] throws. *)
Inductive Event :=
| CallConnect
| CallDisconnect
| TimerFires (i : nat)
| ConnectSettles (i : nat) (r : option string)
| CloseSettles (i : nat) (r : option string)
| Deliver (s : Signal)
| Resume (i : nat)
| CallConnectThrowing (cause : string)
| TimerFiresThrowing (i : nat) (cause : string).

(** One scheduling step.  An event that does not apply to the task it
    names, or that reaches a process that has ended, changes nothing. *)
Definition step (p : Proc) (e : Event) : Proc :=
  match exited p with
  | Some _ => p
  | None =>
      match e with
      | CallConnect => connect_call p
      | CallDisconnect => disconnect_call p
      | TimerFires i =>
          match tasks p !! i with
          | Some ConnectPolling => connect_wake i p
          | _ => p
          end
      | ConnectSettles i r =>
          match tasks p !! i with
          | Some ConnectAwaiting => connect_settle i r p
          | _ => p
          end
      | CloseSettles i r => close_settle i r p
      | Deliver s => deliver s p
      | Resume i =>
          match tasks p !! i with
          | Some (ShutdownPending r) => shutdown_resume i r p
          | _ => p
          end
      | CallConnectThrowing cause => connect_call_throwing cause p
      | TimerFiresThrowing i cause =>
          match tasks p !! i with
          | Some ConnectPolling => connect_wake_throwing i cause p
          | _ => p
          end
      end
  end.

Definition run (p : Proc) (evs : list Event) : Proc := foldl step p evs.

(** ** Vocabulary for the properties of connect() *)

(** A manager as the constructor leaves it, and the manager built with no
    configuration in an empty environment. *)
Definition idle (cfg : MongoConnectionConfig) : Manager :=
  mkManager None None cfg false false.

Definition fresh : Manager :=
  new_MongoConnectionManager (mkEnv None None) None.


(** Where a run of the shutdown closure first suspends: inside
    [disconnect()] on [client.close()] when the manager holds a client,
    else on the [await] of a [disconnect()] that had nothing to close. *)
Definition shutdown_task (m : Manager) : Task :=
  match client m with
  | Some _ => ShutdownClosing
  | None => ShutdownPending None
  end.

End Connection.

(** * Part II: the module-level singleton ([connection.ts], lines 119-131) *)

Module Singleton.
Import Connection.

(** Manager objects live on the heap and are handed around by reference;
    [globalConnectionManager] holds such a reference or [null]. *)
Definition ManagerRef := nat.

Record ModuleState := mkModule {
  heap : list Manager;
  globalConnectionManager : option ManagerRef;
}.

Definition loaded : ModuleState :=
  {| heap := []; globalConnectionManager := None |}.

Definition getConnectionManager (env : Env) (config : option PartialConfig)
    (st : ModuleState) : ManagerRef * ModuleState :=
  match globalConnectionManager st with
  | Some r => (r, st)
  | None =>
      let r := length (heap st) in
      (r, {| heap := heap st ++ [new_MongoConnectionManager env config];
             globalConnectionManager := Some r |})
  end.

Definition resetConnectionManager (st : ModuleState) : ModuleState :=
  {| heap := heap st; globalConnectionManager := None |}.

(** A run of calls [getConnectionManager(c)], one per element (each with
    the environment of its moment), collecting the references returned. *)
Fixpoint getMany (cs : list (Env * option PartialConfig))
    (st : ModuleState) : list ManagerRef * ModuleState :=
  match cs with
  | [] => ([], st)
  | (env, c) :: cs =>
      let '(r, st) := getConnectionManager env c st in
      let '(rs, st) := getMany cs st in
      (r :: rs, st)
  end.

End Singleton.

(** * Part III: the document store behind a collection handle

    The driver is a collaborator of the engine, not part of it.  This is
    its contract as the engine relies on it: point lookup, filtered scan
    with skip and limit, count by filter, insert, update and delete, every
    write reporting an acknowledgment flag and a count. *)

Module Mongo.
Import Connection.

(** ** Values and documents *)

#[local] Set Warnings "-register-all".

Inductive Value :=
| VNull
| VBool (b : bool)
| VNum (z : Z)
| VStr (s : string)
| VObjectId (hex : string)
| VObject (fields : list (string * Value)).

(** Documents, filters, update payloads and driver options are JavaScript
    objects used as maps from property names. *)
Abbreviation Doc := (gmap string Value).
Abbreviation Filter := (gmap string Value).
Abbreviation FindOptions := (gmap string Value).

(** [UpdateFilter<T>]: each operator ([$set], [$inc], [$unset], ...) that
    is present carries an object of fields. *)
Abbreviation UpdateFilter := (gmap string (gmap string Value)).

(** What a [catch] clause can receive: an [Error] with its message, or
    any other value, known by its [String(...)] rendering. *)
Inductive Thrown := ErrorObj (message : string) | Other (rendering : string).

(** The query semantics of the document store: which documents a filter
    selects, what an update payload does to a document ([None]: nothing
    changes), and how the options of [find] (sort, projection) arrange the
    selected documents; arranging neither adds nor drops a document. *)
Class Driver := {
  matches : Filter → Doc → bool;
  applyUpdate : UpdateFilter → Doc → option Doc;
  arrange : FindOptions → list Doc → list Doc;
  arrange_length : ∀ o l, length (arrange o l) = length l;
}.

(** [db.collection(name)] *)
Record Collection := mkCollection { coll_db : Db; coll_name : string }.

(** A cursor as [find] returns it and [skip]/[limit] configure it; nothing
    is read before [toArray]. *)
Record Cursor := mkCursor {
  cur_collection : Collection;
  cur_filter : Filter;
  cur_options : FindOptions;
  cur_skip : Z;
  cur_limit : Z;       (* 0: no limit *)
}.

Inductive StoreCall :=
| InsertOne (d : Doc)
| FindOne (f : Filter)
| ToArray (c : Cursor)
| CountDocuments (f : Filter)
| UpdateOne (f : Filter) (u : UpdateFilter)
| DeleteOne (f : Filter)
| DeleteMany (f : Filter).

(** What the environment does to a store call: let it through, make it
    throw, or (for a write) apply it without acknowledging it. *)
Inductive Fault := NoFault | Throw (e : Thrown) | Unacknowledged.

(** The world an engine runs in: the documents of its collection, the
    manager object it holds a reference to, the faults still to come (one
    per store call; none once the list is used up), the store calls made
    so far with the collection handle each was made on, and the number of
    identifiers generated. *)
Record World := mkWorld {
  documents : list Doc;
  manager : Manager;
  faults : list Fault;
  calls : list (Collection * StoreCall);
  idsMade : nat;
}.

(** ** Computations that read and write the world and may throw *)

Definition M (A : Type) : Type := World → (Thrown + A) * World.

Definition ret {A} (a : A) : M A := λ w, (inr a, w).

Definition throw {A} (e : Thrown) : M A := λ w, (inl e, w).

Definition bind {A B} (m : M A) (k : A → M B) : M B :=
  λ w, match m w with
       | (inr a, w') => k a w'
       | (inl e, w') => (inl e, w')
       end.

Definition try_catch {A} (body : M A) (handler : Thrown → M A) : M A :=
  λ w, match body w with
       | (inr a, w') => (inr a, w')
       | (inl e, w') => handler e w'
       end.

Notation "'let!' x := m 'in' k" := (bind m (λ x, k))
  (at level 10, x name, m at level 100, k at level 200, only parsing).

(** ** The store behind a collection handle *)

Definition take_fault (w : World) : Fault * list Fault :=
  match faults w with
  | [] => (NoFault, [])
  | f :: fs => (f, fs)
  end.

(** Record call [k] on handle [c], with the documents and the fault list
    it leaves behind. *)
Definition after_call (c : Collection) (k : StoreCall) (docs : list Doc)
    (fs : list Fault) (w : World) : World :=
  {| documents := docs; manager := manager w; faults := fs;
     calls := calls w ++ [(c, k)]; idsMade := idsMade w |}.

Record InsertOneResult := mkInserted {
  io_acknowledged : bool;
  insertedId : Value;
}.

Record MongoUpdateResult := mkUpdated {
  mu_acknowledged : bool;
  matchedCount : nat;
  modifiedCount : nat;
}.

Record MongoDeleteResult := mkDeleted {
  md_acknowledged : bool;
  deletedCount : nat;
}.

(** Replace the first document selected by [sel] with what [f] makes of
    it; the two counts are the documents selected and changed. *)
Fixpoint update_first (sel : Doc → bool) (f : Doc → option Doc)
    (docs : list Doc) : list Doc * (nat * nat) :=
  match docs with
  | [] => ([], (0, 0))
  | d :: ds =>
      if sel d then
        match f d with
        | Some d' => (d' :: ds, (1, 1))
        | None => (d :: ds, (1, 0))
        end
      else
        let '(ds', n) := update_first sel f ds in (d :: ds', n)
  end.

Fixpoint delete_first (sel : Doc → bool) (docs : list Doc)
    : list Doc * nat :=
  match docs with
  | [] => ([], 0)
  | d :: ds =>
      if sel d then (ds, 1)
      else let '(ds', n) := delete_first sel ds in (d :: ds', n)
  end.

Section Store.
Context `{Driver}.

Definition insertOne (c : Collection) (d : Doc) : M InsertOneResult :=
  λ w,
    let '(f, fs) := take_fault w in
    let id := default VNull (d !! "_id") in
    match f with
    | Throw e => (inl e, after_call c (InsertOne d) (documents w) fs w)
    | Unacknowledged =>
        (inr (mkInserted false id),
         after_call c (InsertOne d) (documents w ++ [d]) fs w)
    | NoFault =>
        (inr (mkInserted true id),
         after_call c (InsertOne d) (documents w ++ [d]) fs w)
    end.

Definition findOne (c : Collection) (f : Filter) : M (option Doc) :=
  λ w,
    let '(ft, fs) := take_fault w in
    let w' := after_call c (FindOne f) (documents w) fs w in
    match ft with
    | Throw e => (inl e, w')
    | _ => (inr (head (filter (λ d, matches f d = true) (documents w))), w')
    end.

Definition find (c : Collection) (f : Filter) (o : FindOptions) : Cursor :=
  {| cur_collection := c; cur_filter := f; cur_options := o;
     cur_skip := 0; cur_limit := 0 |}.

Definition cursor_skip (n : Z) (cur : Cursor) : Cursor :=
  {| cur_collection := cur_collection cur; cur_filter := cur_filter cur;
     cur_options := cur_options cur; cur_skip := n;
     cur_limit := cur_limit cur |}.

Definition cursor_limit (n : Z) (cur : Cursor) : Cursor :=
  {| cur_collection := cur_collection cur; cur_filter := cur_filter cur;
     cur_options := cur_options cur; cur_skip := cur_skip cur;
     cur_limit := n |}.

(** The documents a cursor yields: selected, arranged, then paged. *)
Definition page (cur : Cursor) (docs : list Doc) : list Doc :=
  let selected := filter (λ d, matches (cur_filter cur) d = true) docs in
  let skipped :=
    drop (Z.to_nat (cur_skip cur)) (arrange (cur_options cur) selected) in
  if decide (cur_limit cur = 0%Z) then skipped
  else take (Z.to_nat (Z.abs (cur_limit cur))) skipped.

Definition toArray (cur : Cursor) : M (list Doc) :=
  λ w,
    let '(ft, fs) := take_fault w in
    let w' := after_call (cur_collection cur) (ToArray cur) (documents w) fs w in
    match ft with
    | Throw e => (inl e, w')
    | _ => (inr (page cur (documents w)), w')
    end.

Definition countDocuments (c : Collection) (f : Filter) : M nat :=
  λ w,
    let '(ft, fs) := take_fault w in
    let w' := after_call c (CountDocuments f) (documents w) fs w in
    match ft with
    | Throw e => (inl e, w')
    | _ => (inr (length (filter (λ d, matches f d = true) (documents w))), w')
    end.

Definition updateOne (c : Collection) (f : Filter) (u : UpdateFilter)
    : M MongoUpdateResult :=
  λ w,
    let '(ft, fs) := take_fault w in
    let '(docs, (m, n)) :=
      update_first (matches f) (applyUpdate u) (documents w) in
    match ft with
    | Throw e => (inl e, after_call c (UpdateOne f u) (documents w) fs w)
    | Unacknowledged =>
        (inr (mkUpdated false 0 0), after_call c (UpdateOne f u) docs fs w)
    | NoFault =>
        (inr (mkUpdated true m n), after_call c (UpdateOne f u) docs fs w)
    end.

Definition deleteOne (c : Collection) (f : Filter) : M MongoDeleteResult :=
  λ w,
    let '(ft, fs) := take_fault w in
    let '(docs, n) := delete_first (matches f) (documents w) in
    match ft with
    | Throw e => (inl e, after_call c (DeleteOne f) (documents w) fs w)
    | Unacknowledged =>
        (inr (mkDeleted false 0), after_call c (DeleteOne f) docs fs w)
    | NoFault =>
        (inr (mkDeleted true n), after_call c (DeleteOne f) docs fs w)
    end.

Definition deleteMany (c : Collection) (f : Filter) : M MongoDeleteResult :=
  λ w,
    let '(ft, fs) := take_fault w in
    let kept := filter (λ d, matches f d ≠ true) (documents w) in
    let n := length (documents w) - length kept in
    match ft with
    | Throw e => (inl e, after_call c (DeleteMany f) (documents w) fs w)
    | Unacknowledged =>
        (inr (mkDeleted false 0), after_call c (DeleteMany f) kept fs w)
    | NoFault =>
        (inr (mkDeleted true n), after_call c (DeleteMany f) kept fs w)
    end.

End Store.

End Mongo.

(** * Part IV: the generic CRUD engine ([crud.ts]) *)

Module Crud.
Import Connection Mongo.

(** [IdType = ObjectId | string]; an [ObjectId] is known by its
    hexadecimal rendering. *)
Inductive IdType := IdObject (hex : string) | IdString (s : string).

Definition id_value (id : IdType) : Value :=
  match id with
  | IdObject h => VObjectId h
  | IdString s => VStr s
  end.

(** [`${id}`] *)
Definition show_id (id : IdType) : string :=
  match id with
  | IdObject h => h
  | IdString s => s
  end.

(** The filter [{ _id: validatedId }]. *)
Definition by_id (id : IdType) : Filter := {["_id" := id_value id]}.

Record CrudOptions := mkOptions {
  useObjectId : option bool;
  collectionName : string;
}.

Record FindManyOptions := mkFindMany {
  limit : option Z;
  skip : option Z;
  findOptions : FindOptions;   (* the remaining properties *)
}.

(** ** Result envelopes *)

Record CreateResult := mkCreate {
  cr_success : bool;
  cr_data : option Doc;
  cr_id : option Value;
  cr_error : option string;
}.

Record UpdateResult := mkUpdate {
  ur_success : bool;
  ur_data : option Doc;
  ur_modifiedCount : nat;
  ur_error : option string;
}.

Record DeleteResult := mkDelete {
  dr_success : bool;
  dr_deletedCount : nat;
  dr_error : option string;
}.

Record FindResult := mkFind {
  fr_success : bool;
  fr_data : option Doc;
  fr_error : option string;
}.

Record FindManyResult := mkFindManyResult {
  fm_success : bool;
  fm_data : list Doc;
  fm_total : nat;
  fm_error : option string;
}.

(** ** The collaborators *)

(** The identifier authorities: [ObjectId.isValid], [new ObjectId(s)],
    and the two generators, which draw on a counter for freshness. *)
Class IdAuthority := {
  ObjectId_isValid : string → bool;
  ObjectId_ofString : string → string;
  ObjectId_fresh : nat → string;
  uuidv4 : nat → string;
}.

(** The validation schema.  [parse] returns the parsed value, throws a
    [ZodError] carrying every issue found, or throws something else. *)
Inductive PathElem := Key (k : string) | Index (n : N).

Record ZodIssue := mkIssue { path : list PathElem; message : string }.

Inductive Parsed :=
| ParseOk (d : Doc)
| ZodError (errors : list ZodIssue)
| ParseThrows (e : Thrown).

Record ZodSchema := mkSchema {
  parse : Doc → Parsed;
  partial_parse : Doc → Parsed;     (* [schema.partial().parse] *)
}.

(** ** The engine *)

Record MongoCRUD := mkEngine {
  collection : Collection;
  schema : ZodSchema;
  options : CrudOptions;
}.

(** [`${path.join('.')}: ${message}`] and [Array.prototype.join]. *)
Fixpoint join (sep : string) (l : list string) : string :=
  match l with
  | [] => ""
  | [x] => x
  | x :: l' => x ++ sep ++ join sep l'
  end.

Definition show_elem (e : PathElem) : string :=
  match e with
  | Key k => k
  | Index n => pretty n
  end.

Definition show_issue (err : ZodIssue) : string :=
  join "." (show_elem <$> path err) ++ ": " ++ message err.

Definition errorMessages (errors : list ZodIssue) : string :=
  join ", " (show_issue <$> errors).

(** [handleError]: the message of an [Error], the string rendering of
    anything else.  What it prints on the console is left out. *)
Definition handleError (error : Thrown) (operation : string) : string :=
  match error with
  | ErrorObj m => m
  | Other s => s
  end.

Definition truthy (b : option bool) : bool := default false b.

Section Engine.
Context `{Driver} `{IdAuthority}.

(** The constructor: the collection handle is taken from the manager's
    database handle here, and stored. *)
Definition new_MongoCRUD (schema : ZodSchema) (options : CrudOptions)
    : M MongoCRUD :=
  λ w, match getDb (manager w) with
       | inl msg => (inl (ErrorObj msg), w)
       | inr db =>
           (inr {| collection := mkCollection db (collectionName options);
                   schema := schema; options := options |}, w)
       end.

Definition generateId (E : MongoCRUD) : M IdType :=
  λ w,
    let n := idsMade w in
    (inr (if truthy (useObjectId (options E))
          then IdObject (ObjectId_fresh n) else IdString (uuidv4 n)),
     {| documents := documents w; manager := manager w; faults := faults w;
        calls := calls w; idsMade := S n |}).

Definition validateId (E : MongoCRUD) (id : IdType) : M IdType :=
  if truthy (useObjectId (options E)) then
    match id with
    | IdString s =>
        if ObjectId_isValid s then ret (IdObject (ObjectId_ofString s))
        else throw (ErrorObj ("Invalid ObjectId: " ++ s))
    | IdObject _ => ret id
    end
  else ret id.

Definition validateData (E : MongoCRUD) (data : Doc) : M Doc :=
  match parse (schema E) data with
  | ParseOk d => ret d
  | ZodError errors =>
      throw (ErrorObj ("Validation failed: " ++ errorMessages errors))
  | ParseThrows e => throw e
  end.

Definition create (E : MongoCRUD) (data : Doc) : M CreateResult :=
  try_catch
    (let! validatedData := validateData E data in
     let! id := generateId E in
     let documentToInsert := <["_id" := id_value id]> validatedData in
     let! result := insertOne (collection E) documentToInsert in
     if io_acknowledged result then
       ret {| cr_success := true; cr_data := Some documentToInsert;
              cr_id := Some (insertedId result); cr_error := None |}
     else
       ret {| cr_success := false; cr_data := None; cr_id := None;
              cr_error := Some "Insert operation was not acknowledged" |})
    (λ error,
       ret {| cr_success := false; cr_data := None; cr_id := None;
              cr_error := Some (handleError error "create") |}).

Definition findById (E : MongoCRUD) (id : IdType) : M FindResult :=
  try_catch
    (let! validatedId := validateId E id in
     let! document := findOne (collection E) (by_id validatedId) in
     match document with
     | Some d =>
         ret {| fr_success := true; fr_data := Some d; fr_error := None |}
     | None =>
         ret {| fr_success := false; fr_data := None;
                fr_error :=
                  Some ("Document with id " ++ show_id id ++ " not found") |}
     end)
    (λ error,
       ret {| fr_success := false; fr_data := None;
              fr_error := Some (handleError error "findById") |}).

(** Lines 179 and 180 are two awaits; here [countDocuments] runs on the
    store as [toArray] left it, that is, no other task writes to the
    collection between the two. *)
Definition findMany (E : MongoCRUD) (filter : Filter)
    (opts : FindManyOptions) : M FindManyResult :=
  try_catch
    (let limit := default 100%Z (limit opts) in
     let skip := default 0%Z (skip opts) in
     let cursor := find (collection E) filter (findOptions opts) in
     let cursor := if (0 <? skip)%Z then cursor_skip skip cursor else cursor in
     let cursor :=
       if (0 <? limit)%Z then cursor_limit limit cursor else cursor in
     let! documents := toArray cursor in
     let! total := countDocuments (collection E) filter in
     ret {| fm_success := true; fm_data := documents; fm_total := total;
            fm_error := None |})
    (λ error,
       ret {| fm_success := false; fm_data := []; fm_total := 0;
              fm_error := Some (handleError error "findMany") |}).

Definition updateById (E : MongoCRUD) (id : IdType) (update : UpdateFilter)
    : M UpdateResult :=
  try_catch
    (let! validatedId := validateId E id in
     let! _ := match update !! "$set" with
          | Some fields =>
              match partial_parse (schema E) fields with
              | ParseOk _ => ret tt
              | ZodError errors =>
                  throw (ErrorObj ("Update validation failed: "
                                   ++ errorMessages errors))
              | ParseThrows e => throw e
              end
          | None => ret tt
          end in
     let! result := updateOne (collection E) (by_id validatedId) update in
     if mu_acknowledged result then
       let! updatedDocument := findOne (collection E) (by_id validatedId) in
       ret {| ur_success := true; ur_data := updatedDocument;
              ur_modifiedCount := modifiedCount result; ur_error := None |}
     else
       ret {| ur_success := false; ur_data := None; ur_modifiedCount := 0;
              ur_error := Some "Update operation was not acknowledged" |})
    (λ error,
       ret {| ur_success := false; ur_data := None; ur_modifiedCount := 0;
              ur_error := Some (handleError error "updateById") |}).

Definition delete_outcome (result : MongoDeleteResult) : DeleteResult :=
  if md_acknowledged result then
    {| dr_success := true; dr_deletedCount := deletedCount result;
       dr_error := None |}
  else
    {| dr_success := false; dr_deletedCount := 0;
       dr_error := Some "Delete operation was not acknowledged" |}.

Definition deleteById (E : MongoCRUD) (id : IdType) : M DeleteResult :=
  try_catch
    (let! validatedId := validateId E id in
     let! result := deleteOne (collection E) (by_id validatedId) in
     ret (delete_outcome result))
    (λ error,
       ret {| dr_success := false; dr_deletedCount := 0;
              dr_error := Some (handleError error "deleteById") |}).

Definition deleteMany (E : MongoCRUD) (filter : Filter) : M DeleteResult :=
  try_catch
    (let! result := Mongo.deleteMany (collection E) filter in
     ret (delete_outcome result))
    (λ error,
       ret {| dr_success := false; dr_deletedCount := 0;
              dr_error := Some (handleError error "deleteMany") |}).

Definition exists_ (E : MongoCRUD) (id : IdType) : M bool :=
  try_catch
    (let! validatedId := validateId E id in
     let! count := countDocuments (collection E) (by_id validatedId) in
     ret (bool_decide (0 < count)))
    (λ _, ret false).

Definition count (E : MongoCRUD) (filter : Filter) : M nat :=
  try_catch (countDocuments (collection E) filter) (λ _, ret 0).

Definition getCollection (E : MongoCRUD) : Collection := collection E.

End Engine.

(** ** Vocabulary for the properties of the engine *)

(** [s] occurs in [t]. *)
Definition occurs_in (s t : string) : Prop := ∃ pre post, t = pre ++ s ++ post.

(** The same world around a manager in another state. *)
Definition with_manager (m : Manager) (w : World) : World :=
  {| documents := documents w; manager := m; faults := faults w;
     calls := calls w; idsMade := idsMade w |}.

(** No transport error on the next [n] store calls, and no fault at all. *)
Definition lets_through (f : Fault) : Prop :=
  match f with Throw _ => False | _ => True end.

Definition no_throw (n : nat) (w : World) : Prop :=
  Forall lets_through (take n (faults w)).

Definition no_fault (n : nat) (w : World) : Prop :=
  Forall (λ f, f = NoFault) (take n (faults w)).

(** The documents of the collection a filter selects. *)
Definition selected `{Driver} (f : Filter) (w : World) : list Doc :=
  filter (λ d, matches f d = true) (documents w).

(** A computation that leaves the manager alone, makes its store calls on
    handle [c] only, and does the same whatever state the manager is in. *)
Definition on_handle {A} (c : Collection) (m : M A) : Prop :=
  ∀ w,
    (∃ l, calls (m w).2 = (calls w ++ l)%list ∧ Forall (λ x, x.1 = c) l) ∧
    manager (m w).2 = manager w ∧
    ∀ mg, m (with_manager mg w) = ((m w).1, with_manager mg (m w).2).

(** A failure carries no data, a success carries no error message. *)
Definition create_envelope (r : CreateResult) : Prop :=
  (cr_success r = false → cr_data r = None) ∧
  (cr_success r = true → cr_error r = None).

Definition find_envelope (r : FindResult) : Prop :=
  (fr_success r = false → fr_data r = None) ∧
  (fr_success r = true → fr_error r = None).

Definition findMany_envelope (r : FindManyResult) : Prop :=
  (fm_success r = false → fm_data r = []) ∧
  (fm_success r = true → fm_error r = None).

Definition update_envelope (r : UpdateResult) : Prop :=
  (ur_success r = false → ur_data r = None) ∧
  (ur_success r = true → ur_error r = None).

Definition delete_envelope (r : DeleteResult) : Prop :=
  dr_success r = true → dr_error r = None.

End Crud.

(** * Part V: a sample store, sample identifiers, a sample schema *)

Module Sample.
Import Connection Mongo Crud.

Fixpoint value_eqb (a b : Value) : bool :=
  match a, b with
  | VNull, VNull => true
  | VBool x, VBool y => bool_decide (x = y)
  | VNum x, VNum y => bool_decide (x = y)
  | VStr x, VStr y => bool_decide (x = y)
  | VObjectId x, VObjectId y => bool_decide (x = y)
  | VObject xs, VObject ys =>
      (fix go (xs ys : list (string * Value)) : bool :=
         match xs, ys with
         | [], [] => true
         | (k, v) :: xs, (k', v') :: ys =>
             bool_decide (k = k') && value_eqb v v' && go xs ys
         | _, _ => false
         end) xs ys
  | _, _ => false
  end.

(** Every field of [fs] is in [d] with an equal value. *)
Definition has_fields (fs : gmap string Value) (d : Doc) : bool :=
  forallb (λ kv, match d !! kv.1 with
                 | Some v => value_eqb kv.2 v
                 | None => false
                 end) (map_to_list fs).

(** A store that selects by field equality, applies [$set], and returns
    documents in insertion order. *)
#[export] Instance equalityDriver : Driver := {|
  matches := has_fields;
  applyUpdate u d :=
    match u !! "$set" with
    | Some fs => if has_fields fs d then None else Some (fs ∪ d)
    | None => None
    end;
  arrange _ l := l;
  arrange_length _ _ := eq_refl;
|}.

Definition is_hex (c : Ascii.ascii) : bool :=
  let n := Ascii.nat_of_ascii c in
  bool_decide (48 ≤ n ≤ 57)%nat || bool_decide (65 ≤ n ≤ 70)%nat
  || bool_decide (97 ≤ n ≤ 102)%nat.

Definition lower (c : Ascii.ascii) : Ascii.ascii :=
  let n := Ascii.nat_of_ascii c in
  if bool_decide (65 ≤ n ≤ 70)%nat then Ascii.ascii_of_nat (n + 32) else c.

Definition pad (n : nat) (s : string) : string :=
  String.concat "" (replicate (n - String.length s) "0") ++ s.

(** Identifiers of 24 hexadecimal digits; generated ones count up. *)
#[export] Instance countingIds : IdAuthority := {|
  ObjectId_isValid s :=
    bool_decide (String.length s = 24%nat)
    && forallb is_hex (String.list_ascii_of_string s);
  ObjectId_ofString s :=
    String.string_of_list_ascii (lower <$> String.list_ascii_of_string s);
  ObjectId_fresh n := pad 24 (pretty n);
  uuidv4 n := "00000000-0000-4000-8000-" ++ pad 12 (pretty n);
|}.

(** A schema with a required string [name] and a required non-negative
    number [age]; it reports every field that is wrong. *)
Definition check_name (partial : bool) (d : Doc) : list ZodIssue :=
  match d !! "name" with
  | Some (VStr _) => []
  | Some _ => [mkIssue [Key "name"] "Expected string"]
  | None => if partial then [] else [mkIssue [Key "name"] "Required"]
  end.

Definition check_age (partial : bool) (d : Doc) : list ZodIssue :=
  match d !! "age" with
  | Some (VNum z) =>
      if (z <? 0)%Z
      then [mkIssue [Key "age"] "Number must be greater than or equal to 0"]
      else []
  | Some _ => [mkIssue [Key "age"] "Expected number"]
  | None => if partial then [] else [mkIssue [Key "age"] "Required"]
  end.

Definition check (partial : bool) (d : Doc) : Parsed :=
  match (check_name partial d ++ check_age partial d)%list with
  | [] => ParseOk d
  | errs => ZodError errs
  end.

Definition userSchema : ZodSchema :=
  {| parse := check false; partial_parse := check true |}.

(** A connected manager, an engine in native-id mode built against it, an
    engine in external-id mode, and two worlds: an empty collection and
    one with three users. *)
Definition connected : Manager :=
  mgr (run (boot fresh) [CallConnect; ConnectSettles 0 None]).

Definition reconnected : Manager :=
  mgr (run (boot fresh)
         [CallConnect; ConnectSettles 0 None;
          CallDisconnect; CloseSettles 1 None;
          CallConnect; ConnectSettles 2 None]).

Definition users : Collection := mkCollection (mkDb 0 "test") "users".

Definition nativeEngine : MongoCRUD :=
  mkEngine users userSchema (mkOptions (Some true) "users").

Definition externalEngine : MongoCRUD :=
  mkEngine users userSchema (mkOptions None "users").

Definition user (id name : string) (age : Z) : Doc :=
  <["_id" := VStr id]> (<["name" := VStr name]> (<["age" := VNum age]> ∅)).

Definition emptyWorld : World := mkWorld [] connected [] [] 0.

Definition threeUsers : World :=
  mkWorld [user "u1" "Ada" 36; user "u2" "Grace" 45; user "u3" "Edsger" 72]
    connected [] [] 0.

(** An input and an update payload the schema rejects. *)
Definition badUser : Doc := <["name" := VNum 3]> (<["age" := VNum (-5)]> ∅).

Definition badUpdate : UpdateFilter :=
  {["$set" := <["age" := VNum (-1)]> ∅]}.

End Sample.

(** * Identifier helpers (the type guards and converters of the types file) *)

Module Types.
Import Mongo Crud.

(** The character classes of [uuidRegex]; the [i] flag makes the letters
    of a class match in either case. *)
Inductive CharClass := Hex | Dash | Version | Variant.

Definition between (lo hi : nat) (a : Ascii.ascii) : bool :=
  let n := Ascii.nat_of_ascii a in
  bool_decide (lo ≤ n)%nat && bool_decide (n ≤ hi)%nat.

Definition in_class (c : CharClass) (a : Ascii.ascii) : bool :=
  match c with
  | Hex => between 48 57 a || between 97 102 a || between 65 70 a
  | Dash => between 45 45 a
  | Version => between 49 53 a
  | Variant => between 56 57 a || between 97 98 a || between 65 66 a
  end.

(** [/^[0-9a-f]{8}-[0-9a-f]{4}-[1-5][0-9a-f]{3}-[89ab][0-9a-f]{3}-[0-9a-f]{12}$/i] *)
Definition uuidRegex : list CharClass :=
  (replicate 8 Hex ++ [Dash] ++ replicate 4 Hex ++ [Dash]
   ++ [Version] ++ replicate 3 Hex ++ [Dash]
   ++ [Variant] ++ replicate 3 Hex ++ [Dash] ++ replicate 12 Hex)%list.

(** [regex.test] for a pattern anchored at both ends. *)
Fixpoint test (re : list CharClass) (s : list Ascii.ascii) : bool :=
  match re, s with
  | [], [] => true
  | c :: re, a :: s => in_class c a && test re s
  | _, _ => false
  end.

(** The guards and converters, on the values of [IdType]. *)
Section Guards.
Context `{IdAuthority}.

Definition isObjectId (id : IdType) : bool :=
  match id with
  | IdObject _ => true
  | IdString s => ObjectId_isValid s
  end.

Definition isUUID (id : IdType) : bool :=
  match id with
  | IdString s => test uuidRegex (String.list_ascii_of_string s)
  | IdObject _ => false
  end.

Definition isString (id : IdType) : bool :=
  match id with
  | IdString _ => true
  | IdObject _ => false
  end.

Definition isValidId (id : IdType) : bool :=
  isObjectId id || isUUID id || isString id.

Definition toObjectId (id : IdType) : Thrown + IdType :=
  match id with
  | IdObject _ => inr id
  | IdString s =>
      if ObjectId_isValid s then inr (IdObject (ObjectId_ofString s))
      else inl (ErrorObj ("Invalid ObjectId: " ++ s))
  end.

Definition toStringId (id : IdType) : string :=
  match id with
  | IdObject h => h
  | IdString s => s
  end.

End Guards.

(** The character [-]. *)
Definition hyphen : Ascii.ascii := Ascii.ascii_of_nat 45.

(** Upper-casing of the letters a to z, to state what the [i] flag means. *)
Definition upper (a : Ascii.ascii) : Ascii.ascii :=
  if between 97 122 a
  then Ascii.ascii_of_nat (Ascii.nat_of_ascii a - 32) else a.

Definition upper_string (s : string) : string :=
  String.string_of_list_ascii (upper <$> String.list_ascii_of_string s).

End Types.

(** * Vocabulary for further properties of the manager and of the engine *)

Module Reach.
Import Connection.

#[global] Instance Task_eq_dec : EqDecision Task.
Proof. solve_decision. Defined.

(** A setting that is missing or empty, which [||] passes over. *)
Definition blank (a : option string) : Prop := a = None ∨ a = Some "".

(** The connection attempts in flight: callers suspended on
    [client.connect()]. *)
Definition in_flight (ts : list Task) : nat :=
  length (filter (λ t, t = ConnectAwaiting) ts).

(** [k] rounds of [setupShutdownHandlers]. *)
Fixpoint rounds (k : nat) : list Signal :=
  match k with
  | 0 => []
  | S k => (rounds k ++ [SIGINT; SIGTERM; SIGQUIT])%list
  end.

(** Every call that resolved did so with a handle of a client older than
    [n]. *)
Definition resolved_below (n : nat) (ts : list Task) : Prop :=
  ∀ i d, ts !! i = Some (ConnectResolved d) → (db_client d < n)%nat.

(** What holds of a process after any sequence of events, when it started
    with a new manager of configuration [cfg]. *)
Record Sound (cfg : MongoConnectionConfig) (p : Proc) : Prop := mkSound {
  sound_config : config (mgr p) = cfg;
  sound_handle : ∀ d, db (mgr p) = Some d →
    isConnected (mgr p) = true ∧ isConnecting (mgr p) = false ∧
    client (mgr p) = Some (db_client d) ∧ db_name d = dbName cfg;
  sound_no_handle : db (mgr p) = None → isConnected (mgr p) = false;
  sound_flight :
    in_flight (tasks p) = if isConnecting (mgr p) then 1 else 0;
  sound_counts : clientsMade p = connectAttempts p;
  sound_client : ∀ c, client (mgr p) = Some c → (c < clientsMade p)%nat;
  sound_resolved : resolved_below (clientsMade p) (tasks p);
  sound_fresh : isConnecting (mgr p) = true →
    ∀ c, client (mgr p) = Some c → resolved_below c (tasks p);
  sound_listeners : ∃ k, listeners p = rounds k ∧
    (k + in_flight (tasks p) ≤ connectAttempts p)%nat;
  sound_exit : ∀ c, exited p = Some (Exited c) → (c = 0 ∨ c = 1)%Z;
  sound_killed : ∀ s, exited p = Some (Killed s) → listeners p = [];
}.




End Reach.

Module Lifecycle.
Import Connection Mongo Crud.

(** The store selects by [_id] as the engine expects: the filter
    [{ _id: id }] selects exactly the documents whose [_id] is [id]. *)
Definition selects_by_id `{Driver} : Prop :=
  ∀ id d, matches (by_id id) d = true ↔ d !! "_id" = Some (id_value id).

(** The identifier [generateId] hands out in world [w]. *)
Definition next_id `{IdAuthority} (E : MongoCRUD) (w : World) : IdType :=
  if truthy (useObjectId (options E))
  then IdObject (ObjectId_fresh (idsMade w))
  else IdString (uuidv4 (idsMade w)).

(** The world after one store call [k] that left the documents [docs]. *)
Definition called (E : MongoCRUD) (k : StoreCall) (docs : list Doc)
    (w : World) : World :=
  after_call (collection E) k docs (tail (faults w)) w.

(** The world after [generateId]. *)
Definition drawn (w : World) : World :=
  {| documents := documents w; manager := manager w; faults := faults w;
     calls := calls w; idsMade := S (idsMade w) |}.

(** A schema that accepts a payload and hands back something else than
    it was given, as a schema with defaults or stripped keys does. *)
Definition stamping (stamp : Doc) : ZodSchema :=
  {| parse d := ParseOk (stamp ∪ d); partial_parse d := ParseOk (stamp ∪ d) |}.

(** An input the sample schema accepts, a payload it accepts, and the
    sample collection behind a store that answers with the given faults. *)
Definition goodUser : Doc := <["name" := VStr "Al"]> (<["age" := VNum 5]> ∅).

Definition goodUpdate : UpdateFilter := {["$set" := <["age" := VNum 46]> ∅]}.

Definition faulty (fs : list Fault) : World :=
  mkWorld (documents Sample.threeUsers) Sample.connected fs [] 0.

End Lifecycle.

(** * Part VI: properties of the connection lifecycle manager *)

Module ConnectionFacts.
Import Connection.

Lemma run_app p evs evs' : run p (evs ++ evs') = run (run p evs) evs'.
Proof. apply foldl_app. Qed.

Lemma step_exited p e x : exited p = Some x → step p e = p.
Proof. intros Hx. unfold step. by rewrite Hx. Qed.

Lemma run_exited p evs x : exited p = Some x → run p evs = p.
Proof.
  intros Hx. induction evs as [|e evs IH]; [done|].
  simpl. by rewrite (step_exited _ _ _ Hx).
Qed.

Lemma insert_at_end {A} (l : list A) (x y : A) :
  <[length l := y]> (l ++ [x])%list = (l ++ [y])%list.
Proof.
  rewrite insert_app_r_alt by lia. by rewrite Nat.sub_diag.
Qed.

(** ** Signals and shutdown runs *)

Lemma registrations_cons s l ls :
  registrations s (l :: ls)
  = (if decide (l = s) then 1 else 0) + registrations s ls.
Proof.
  unfold registrations. rewrite filter_cons. by destruct (decide (l = s)).
Qed.

Lemma shutdown_call_runs p : shutdownRuns (shutdown_call p) = S (shutdownRuns p).
Proof. unfold shutdown_call. simpl. by destruct (client (mgr p)). Qed.

Lemma emit_runs s ls p :
  shutdownRuns (emit s ls p) = shutdownRuns p + registrations s ls.
Proof.
  revert p. induction ls as [|l ls IH]; intros p; simpl.
  - unfold registrations. simpl. lia.
  - rewrite IH, registrations_cons.
    destruct (decide (l = s)); [rewrite shutdown_call_runs|]; lia.
Qed.

Lemma deliver_runs s p :
  shutdownRuns (deliver s p) = shutdownRuns p + registrations s (listeners p).
Proof.
  unfold deliver. destruct (decide _) as [Hz|Hz].
  - rewrite Hz. simpl. lia.
  - apply emit_runs.
Qed.

(** C3, as stated, fails: the shutdown closure is started twice when two
    signals arrive while the first run is still closing the client, and
    twice on a single signal once [connect()] has established a
    connection two times. *)
Lemma shutdown_runs_more_than_once :
  (let p := run (boot fresh)
              [CallConnect; ConnectSettles 0 None;
               Deliver SIGINT; Deliver SIGTERM] in
   shutdownRuns p = 2 ∧ closeCalls p = 2 ∧ exited p = None) ∧
  (let q := run (boot fresh)
              [CallConnect; ConnectSettles 0 None;
               CallDisconnect; CloseSettles 1 None;
               CallConnect; ConnectSettles 2 None;
               Deliver SIGINT] in
   shutdownRuns q = 2 ∧ registrations SIGINT (listeners q) = 2).
Proof. vm_compute. repeat split. Qed.

Lemma emit_spawns s ls p :
  emit s ls p
  = mkProc (mgr p)
      (tasks p ++ replicate (registrations s ls) (shutdown_task (mgr p)))
      (listeners p) (clientsMade p) (connectAttempts p)
      (closeCalls p
       + match client (mgr p) with Some _ => registrations s ls | None => 0 end)
      (shutdownRuns p + registrations s ls) (exited p).
Proof.
  revert p. induction ls as [|l ls IH]; intros [m ts ls0 cm ca cc sr ex].
  - unfold registrations. simpl. rewrite app_nil_r.
    f_equal; destruct (client m); lia.
  - simpl. rewrite registrations_cons.
    destruct (decide (l = s)) as [_|_]; rewrite IH; [|done].
    unfold shutdown_call, shutdown_task, spawn, bump_close, bump_shutdown.
    simpl. destruct (client m) as [c|] eqn:Hc; simpl; rewrite Hc;
      rewrite <- app_assoc; f_equal; lia.
Qed.

Lemma closing_settles p i r :
  exited p = None → tasks p !! i = Some ShutdownClosing →
  step p (CloseSettles i r)
  = match r with
    | None => set_task i (ShutdownPending None) (set_mgr (forget (mgr p)) p)
    | Some e => set_task i (ShutdownPending (Some e)) p
    end.
Proof. intros Hlive Hi. unfold step, close_settle. by rewrite Hlive, Hi. Qed.

Lemma pending_resumes p i r :
  exited p = None → tasks p !! i = Some (ShutdownPending r) →
  exited (step p (Resume i))
  = Some (Exited (match r with None => 0 | Some _ => 1 end)).
Proof.
  intros Hlive Hi. unfold step. rewrite Hlive, Hi. by destruct r.
Qed.

Lemma pending_resumes_calls p i r :
  exited p = None → tasks p !! i = Some (ShutdownPending r) →
  closeCalls (step p (Resume i)) = closeCalls p.
Proof.
  intros Hlive Hi. unfold step. rewrite Hlive, Hi. by destruct r.
Qed.

(** C3, amended: every run of the shutdown path runs [disconnect()] and
    then ends the process with exit code 0, or 1 when [disconnect()]
    failed, and a process that has ended takes no further step.  The path
    itself can be started more than once: each connection that is
    established registers the closure once more on each of the three
    signals, and a delivered signal starts one run per registration, each
    of which calls [close()] on the client the manager holds. *)
Theorem shutdown_path (p : Proc) :
  exited p = None →
  (∀ i, tasks p !! i = Some ConnectAwaiting → is_Some (client (mgr p)) →
     listeners (step p (ConnectSettles i None))
     = (listeners p ++ [SIGINT; SIGTERM; SIGQUIT])%list) ∧
  (∀ s, shutdownRuns (step p (Deliver s))
        = shutdownRuns p + registrations s (listeners p)) ∧
  (∀ i, tasks p !! i = Some ShutdownClosing →
     let q := step p (CloseSettles i None) in
     client (mgr q) = None ∧ db (mgr q) = None ∧ isConnected (mgr q) = false ∧
     exited q = None ∧
     exited (step q (Resume i)) = Some (Exited 0)) ∧
  (∀ i e, tasks p !! i = Some ShutdownClosing →
     let q := step p (CloseSettles i (Some e)) in
     mgr q = mgr p ∧ exited q = None ∧
     exited (step q (Resume i)) = Some (Exited 1)) ∧
  (∀ i, tasks p !! i = Some (ShutdownPending None) →
     exited (step p (Resume i)) = Some (Exited 0)) ∧
  (∀ q x evs, exited q = Some x → run q evs = q) ∧
  (∀ s, let k := registrations s (listeners p) in
        let q := step p (Deliver s) in
        (0 < k)%nat →
        tasks q = (tasks p ++ replicate k (shutdown_task (mgr p)))%list ∧
        closeCalls q
        = closeCalls p + match client (mgr p) with Some _ => k | None => 0 end ∧
        mgr q = mgr p ∧ exited q = None) ∧
  (∀ s, let i := length (tasks p) in
        (0 < registrations s (listeners p))%nat →
        (is_Some (client (mgr p)) →
           (let q := run p [Deliver s; CloseSettles i None; Resume i] in
            exited q = Some (Exited 0) ∧ client (mgr q) = None ∧
            db (mgr q) = None ∧ isConnected (mgr q) = false ∧
            closeCalls q
            = closeCalls p + registrations s (listeners p)) ∧
           (∀ e, exited (run p [Deliver s; CloseSettles i (Some e); Resume i])
                 = Some (Exited 1))) ∧
        (client (mgr p) = None →
           let q := run p [Deliver s; Resume i] in
           exited q = Some (Exited 0) ∧ closeCalls q = closeCalls p)).
Proof.
  intros Hlive.
  assert (∀ s, (0 < registrations s (listeners p))%nat →
            step p (Deliver s)
            = mkProc (mgr p)
                (tasks p ++ replicate (registrations s (listeners p))
                              (shutdown_task (mgr p)))
                (listeners p) (clientsMade p) (connectAttempts p)
                (closeCalls p + match client (mgr p) with
                                | Some _ => registrations s (listeners p)
                                | None => 0
                                end)
                (shutdownRuns p + registrations s (listeners p)) None)
    as Hdeliver.
  { intros s Hk. unfold step, deliver. rewrite Hlive.
    rewrite decide_False by lia. by rewrite emit_spawns, Hlive. }
  assert (∀ s, (0 < registrations s (listeners p))%nat →
            tasks (step p (Deliver s)) !! length (tasks p)
            = Some (shutdown_task (mgr p))) as Hfirst.
  { intros s Hk. rewrite (Hdeliver s Hk). simpl.
    rewrite lookup_app_r, Nat.sub_diag by lia.
    destruct (registrations s (listeners p)); [lia|done]. }
  assert (∀ q i r, exited q = None →
            tasks q !! i = Some (shutdown_task (mgr q)) →
            is_Some (client (mgr q)) →
            let q' := step (step q (CloseSettles i r)) (Resume i) in
            exited q' = Some (Exited (match r with None => 0 | Some _ => 1 end))
            ∧ (r = None → client (mgr q') = None ∧ db (mgr q') = None ∧
                          isConnected (mgr q') = false)
            ∧ closeCalls q' = closeCalls q) as Hrun.
  { intros q i r Hq Hi [c Hc]. unfold shutdown_task in Hi. rewrite Hc in Hi.
    simpl. rewrite (closing_settles q i r Hq Hi).
    assert (i < length (tasks q))%nat as Hlt by (by eapply lookup_lt_Some).
    destruct r as [e|]; unfold step; simpl; rewrite Hq;
      rewrite list_lookup_insert_eq by done; simpl; by repeat split. }
  split; [|split; [|split; [|split; [|split; [|split; [|split]]]]]].
  - intros i Hi [c Hc]. unfold step. rewrite Hlive, Hi.
    unfold connect_settle. by rewrite Hc.
  - intros s. unfold step. rewrite Hlive. apply deliver_runs.
  - intros i Hi. simpl. rewrite (closing_settles p i None Hlive Hi).
    repeat split; try done.
    apply (pending_resumes _ i None); [done|]. simpl.
    apply list_lookup_insert_eq. by eapply lookup_lt_Some.
  - intros i e Hi. simpl. rewrite (closing_settles p i (Some e) Hlive Hi).
    repeat split; try done.
    apply (pending_resumes _ i (Some e)); [done|]. simpl.
    apply list_lookup_insert_eq. by eapply lookup_lt_Some.
  - intros i Hi. by apply (pending_resumes p i None).
  - intros q x evs Hx. by eapply run_exited.
  - intros s k q Hk. subst q k. by rewrite (Hdeliver s Hk).
  - intros s i Hk. subst i. split.
    + intros Hc.
      assert (exited (step p (Deliver s)) = None) as Hq
        by (by rewrite (Hdeliver s Hk)).
      assert (mgr (step p (Deliver s)) = mgr p) as Hm
        by (by rewrite (Hdeliver s Hk)).
      assert (closeCalls (step p (Deliver s))
              = closeCalls p + registrations s (listeners p)) as Hcc.
      { rewrite (Hdeliver s Hk). simpl. by destruct Hc as [c ->]. }
      pose proof (Hfirst s Hk) as Hi. rewrite <- Hm in Hi, Hc.
      split.
      * destruct (Hrun _ _ None Hq Hi Hc) as (Hexit & Hgone & Hsame).
        destruct (Hgone eq_refl) as (? & ? & ?).
        simpl. repeat split; try done. by rewrite <- Hcc.
      * intros e. by destruct (Hrun _ _ (Some e) Hq Hi Hc) as (Hexit & _).
    + intros Hc. simpl. split.
      * apply (pending_resumes _ _ None); [by rewrite (Hdeliver s Hk)|].
        rewrite (Hfirst s Hk). unfold shutdown_task. by rewrite Hc.
      * pose proof (Hfirst s Hk) as Hi.
        unfold shutdown_task in Hi. rewrite Hc in Hi.
        rewrite (pending_resumes_calls _ _ None)
          by (done || by rewrite (Hdeliver s Hk)).
        rewrite (Hdeliver s Hk). simpl. rewrite Hc. lia.
Qed.

Lemma shutdown_path_witness :
  let p0 := run (boot fresh) [CallConnect] in
  let p1 := run (boot fresh) [CallConnect; ConnectSettles 0 None] in
  let p := run (boot fresh)
             [CallConnect; ConnectSettles 0 None; Deliver SIGTERM] in
  let q := run (boot fresh) [CallConnect; Deliver SIGINT] in
  (exited p0 = None ∧ tasks p0 !! 0 = Some ConnectAwaiting ∧
   is_Some (client (mgr p0)) ∧
   listeners (step p0 (ConnectSettles 0 None)) = [SIGINT; SIGTERM; SIGQUIT]) ∧
  (exited p = None ∧ tasks p !! 1 = Some ShutdownClosing ∧
   shutdownRuns (step p (Deliver SIGINT)) = 2 ∧
   exited (step (step p (CloseSettles 1 None)) (Resume 1)) = Some (Exited 0) ∧
   exited (step (step p (CloseSettles 1 (Some "closed"))) (Resume 1))
   = Some (Exited 1)) ∧
  (exited q = Some (Killed SIGINT) ∧ run q [CallConnect; Deliver SIGTERM] = q) ∧
  (exited p1 = None ∧ (0 < registrations SIGTERM (listeners p1))%nat ∧
   is_Some (client (mgr p1)) ∧
   tasks (step p1 (Deliver SIGTERM))
   = [ConnectResolved (mkDb 0 "test"); ShutdownClosing] ∧
   exited (run p1 [Deliver SIGTERM; CloseSettles 1 None; Resume 1])
   = Some (Exited 0)).
Proof.
  pose (p0 := run (boot fresh) [CallConnect]).
  pose (p1 := run (boot fresh) [CallConnect; ConnectSettles 0 None]).
  pose (p := run (boot fresh)
               [CallConnect; ConnectSettles 0 None; Deliver SIGTERM]).
  pose (q := run (boot fresh) [CallConnect; Deliver SIGINT]).
  destruct (shutdown_path p0 eq_refl) as (Hreg & _).
  destruct (shutdown_path p eq_refl) as (_ & Hruns & Hok & Hfail & _ & Hend & _).
  destruct (shutdown_path p1 eq_refl)
    as (_ & _ & _ & _ & _ & _ & Hspawn & Hwhole).
  assert (0 < registrations SIGTERM (listeners p1))%nat as Hk
    by (vm_compute; lia).
  assert (is_Some (client (mgr p1))) as Hc by (by eexists).
  split; [|split; [|split]].
  - split; [reflexivity|]. split; [reflexivity|].
    split; [by eexists|]. exact (Hreg 0 eq_refl (ex_intro _ 0 eq_refl)).
  - split; [reflexivity|]. split; [reflexivity|].
    split; [exact (Hruns SIGINT)|].
    split.
    + destruct (Hok 1 eq_refl) as (_ & _ & _ & _ & Hexit). exact Hexit.
    + destruct (Hfail 1 "closed" eq_refl) as (_ & _ & Hexit). exact Hexit.
  - split; [reflexivity|].
    exact (Hend q (Killed SIGINT) [CallConnect; Deliver SIGTERM] eq_refl).
  - split; [reflexivity|]. split; [exact Hk|]. split; [exact Hc|].
    split.
    + exact (proj1 (Hspawn SIGTERM Hk)).
    + exact (proj1 (proj1 (proj1 (Hwhole SIGTERM Hk) Hc))).
Defined.

(** ** Callers waiting on an attempt that fails *)


End ConnectionFacts.

(** * Part VII: properties of the module-level singleton *)

Module SingletonFacts.
Import Connection Singleton.

Lemma getConnectionManager_stored env c st r :
  globalConnectionManager st = Some r →
  getConnectionManager env c st = (r, st).
Proof. intros Hr. unfold getConnectionManager. by rewrite Hr. Qed.

Lemma getMany_stored cs st r :
  globalConnectionManager st = Some r →
  getMany cs st = (replicate (length cs) r, st).
Proof.
  intros Hr. induction cs as [|[env c] cs IH]; [done|].
  simpl. by rewrite (getConnectionManager_stored _ _ _ _ Hr), IH.
Qed.

(** C10: with no instance stored, [getConnectionManager(config)] builds a
    manager from [config] and stores it; every later call returns that
    same manager and leaves everything as it is, whatever configuration
    it is given; after [resetConnectionManager()] the next call builds a
    new manager, a different object, from its own configuration. *)
Theorem getConnectionManager_first_config_wins env c st :
  globalConnectionManager st = None →
  let r := (getConnectionManager env c st).1 in
  let st1 := (getConnectionManager env c st).2 in
  heap st !! r = None ∧
  heap st1 !! r = Some (new_MongoConnectionManager env c) ∧
  globalConnectionManager st1 = Some r ∧
  (∀ cs, getMany cs st1 = (replicate (length cs) r, st1)) ∧
  (∀ env' c',
     let r' := (getConnectionManager env' c' (resetConnectionManager st1)).1 in
     let st2 := (getConnectionManager env' c' (resetConnectionManager st1)).2 in
     r' ≠ r ∧
     heap st2 !! r' = Some (new_MongoConnectionManager env' c') ∧
     heap st2 !! r = Some (new_MongoConnectionManager env c)).
Proof.
  intros Hnone. unfold getConnectionManager. rewrite Hnone. simpl.
  split; [by apply lookup_ge_None_2|].
  split; [by apply list_lookup_middle|].
  split; [done|].
  split; [intros cs; by apply getMany_stored|].
  intros env' c'. rewrite length_app. simpl.
  split; [lia|]. split.
  - apply list_lookup_middle. rewrite length_app. simpl. lia.
  - rewrite lookup_app_l by (rewrite length_app; simpl; lia).
    by apply list_lookup_middle.
Qed.

Lemma getConnectionManager_first_config_wins_witness :
  let a := Some (mkPartial (Some "mongodb://a:27017") (Some "first") None) in
  let b := Some (mkPartial (Some "mongodb://b:27017") (Some "second") None) in
  let env := mkEnv None None in
  globalConnectionManager loaded = None ∧
  getMany [(env, b); (env, None)] (getConnectionManager env a loaded).2
  = ([0; 0], (getConnectionManager env a loaded).2).
Proof.
  split; [reflexivity|].
  exact (proj1 (proj2 (proj2 (proj2
    (getConnectionManager_first_config_wins (mkEnv None None)
       (Some (mkPartial (Some "mongodb://a:27017") (Some "first") None))
       loaded eq_refl))))
    [(mkEnv None None,
      Some (mkPartial (Some "mongodb://b:27017") (Some "second") None));
     (mkEnv None None, None)]).
Defined.

End SingletonFacts.

(** * Part VIII: properties of the CRUD engine *)

Module CrudFacts.
Import Connection Mongo Crud.

(** ** Strings *)

Lemma append_cons a s t : String a s ++ t = String a (s ++ t).
Proof. reflexivity. Qed.

Lemma append_nil_r s : s ++ "" = s.
Proof. induction s as [|a s IH]; [done|]. by rewrite append_cons, IH. Qed.

Lemma append_assoc s t u : (s ++ t) ++ u = s ++ t ++ u.
Proof. induction s as [|a s IH]; [done|]. by rewrite !append_cons, IH. Qed.

Lemma occurs_in_suffix s pre t : occurs_in s t → occurs_in s (pre ++ t).
Proof.
  intros (a & b & ->). exists (pre ++ a), b. by rewrite append_assoc.
Qed.

Lemma occurs_in_prefix s t : occurs_in s (s ++ t).
Proof. by exists "", t. Qed.

Lemma join_cons sep x y l :
  join sep (x :: y :: l) = x ++ sep ++ join sep (y :: l).
Proof. reflexivity. Qed.

Lemma join_occurs sep x l : x ∈ l → occurs_in x (join sep l).
Proof.
  induction l as [|y l IH]; [by intros ?%elem_of_nil|].
  intros [->|Hx]%elem_of_cons.
  - destruct l as [|z l]; [|rewrite join_cons; apply occurs_in_prefix].
    exists "", "". by rewrite append_nil_r.
  - destruct l as [|z l]; [by apply elem_of_nil in Hx|].
    rewrite join_cons. by apply occurs_in_suffix, occurs_in_suffix, IH.
Qed.

(** ** Computations that stay on one handle *)

Section OnHandle.
Context {A B : Type} (c : Collection).

Lemma on_handle_ret (a : A) : on_handle c (ret a).
Proof.
  intros w. split; [|done]. exists []. by rewrite app_nil_r.
Qed.

Lemma on_handle_throw (e : Thrown) : on_handle c (@throw A e).
Proof.
  intros w. split; [|done]. exists []. by rewrite app_nil_r.
Qed.

Lemma on_handle_bind (m : M A) (k : A → M B) :
  on_handle c m → (∀ a, on_handle c (k a)) → on_handle c (bind m k).
Proof.
  intros Hm Hk w. destruct (Hm w) as ((l & Hl & Hc) & Hmg & Hind).
  unfold bind. setoid_rewrite Hind.
  destruct (m w) as [[e|a] w1]; simpl in *; [by eauto|].
  destruct (Hk a w1) as ((l' & Hl' & Hc') & Hmg' & Hind').
  split; [|split; [congruence|done]].
  exists (l ++ l')%list. rewrite Hl', Hl, app_assoc. split; [done|].
  by apply Forall_app.
Qed.

Lemma on_handle_try (body : M A) (handler : Thrown → M A) :
  on_handle c body → (∀ e, on_handle c (handler e)) →
  on_handle c (try_catch body handler).
Proof.
  intros Hm Hk w. destruct (Hm w) as ((l & Hl & Hc) & Hmg & Hind).
  unfold try_catch. setoid_rewrite Hind.
  destruct (body w) as [[e|a] w1]; simpl in *; [|by eauto].
  destruct (Hk e w1) as ((l' & Hl' & Hc') & Hmg' & Hind').
  split; [|split; [congruence|done]].
  exists (l ++ l')%list. rewrite Hl', Hl, app_assoc. split; [done|].
  by apply Forall_app.
Qed.

End OnHandle.

Ltac one_call :=
  split;
  [ eexists [_]; split; [reflexivity|by repeat constructor]
  | split; [reflexivity|intros; reflexivity] ].

Ltac store_call op :=
  intros [docs mg fs cs n];
  unfold op, take_fault, after_call, with_manager; simpl;
  repeat match goal with
         | |- context [update_first ?a ?b ?c] =>
             destruct (update_first a b c) as [? [? ?]]
         | |- context [delete_first ?a ?b] =>
             destruct (delete_first a b) as [? ?]
         end;
  destruct fs as [|[| |] fs]; simpl; one_call.

Create HintDb handles.

Section Handles.
Context `{Driver} `{IdAuthority}.

Lemma insertOne_on_handle c d : on_handle c (insertOne c d).
Proof. store_call @insertOne. Qed.

Lemma findOne_on_handle c f : on_handle c (findOne c f).
Proof. store_call @findOne. Qed.

Lemma toArray_on_handle cur : on_handle (cur_collection cur) (toArray cur).
Proof. store_call @toArray. Qed.

Lemma countDocuments_on_handle c f : on_handle c (countDocuments c f).
Proof. store_call @countDocuments. Qed.

Lemma updateOne_on_handle c f u : on_handle c (updateOne c f u).
Proof. store_call @updateOne. Qed.

Lemma deleteOne_on_handle c f : on_handle c (deleteOne c f).
Proof. store_call @deleteOne. Qed.

Lemma deleteMany_on_handle c f : on_handle c (Mongo.deleteMany c f).
Proof. store_call @Mongo.deleteMany. Qed.

Lemma generateId_on_handle c E : on_handle c (generateId E).
Proof.
  intros w. split; [|done]. exists []. by rewrite app_nil_r.
Qed.

Lemma validateId_on_handle c E id : on_handle c (validateId E id).
Proof.
  unfold validateId. repeat case_match;
    auto using on_handle_ret, on_handle_throw.
Qed.

Lemma validateData_on_handle c E data : on_handle c (validateData E data).
Proof.
  unfold validateData. repeat case_match;
    auto using on_handle_ret, on_handle_throw.
Qed.

#[local] Hint Resolve on_handle_ret on_handle_throw insertOne_on_handle
  findOne_on_handle countDocuments_on_handle updateOne_on_handle
  deleteOne_on_handle deleteMany_on_handle generateId_on_handle
  validateId_on_handle validateData_on_handle : handles.

Ltac stays_on_handle :=
  repeat first
    [ apply on_handle_try | apply on_handle_bind
    | match goal with |- ∀ _, _ => intro end
    | progress auto with handles
    | case_match ].

Lemma create_on_handle E data : on_handle (collection E) (create E data).
Proof. unfold create. stays_on_handle. Qed.

Lemma findById_on_handle E id : on_handle (collection E) (findById E id).
Proof. unfold findById. stays_on_handle. Qed.

Lemma findMany_on_handle E flt opts :
  on_handle (collection E) (findMany E flt opts).
Proof.
  unfold findMany. stays_on_handle;
    match goal with
    | |- on_handle _ (toArray ?cur) => exact (toArray_on_handle cur)
    end.
Qed.

Lemma updateById_on_handle E id u :
  on_handle (collection E) (updateById E id u).
Proof. unfold updateById. stays_on_handle. Qed.

Lemma deleteById_on_handle E id : on_handle (collection E) (deleteById E id).
Proof. unfold deleteById. stays_on_handle. Qed.

Lemma deleteMany_engine_on_handle E flt :
  on_handle (collection E) (deleteMany E flt).
Proof. unfold deleteMany. stays_on_handle. Qed.

Lemma exists_on_handle E id : on_handle (collection E) (exists_ E id).
Proof. unfold exists_. stays_on_handle. Qed.

Lemma count_on_handle E flt : on_handle (collection E) (count E flt).
Proof. unfold count. stays_on_handle. Qed.

End Handles.

(** ** The store on a collection with no selected document *)

Lemma update_first_none (sel : Doc → bool) (f : Doc → option Doc) docs :
  filter (λ d, sel d = true) docs = [] →
  update_first sel f docs = (docs, (0, 0)).
Proof.
  induction docs as [|d docs IH]; [done|].
  rewrite filter_cons. simpl. destruct (sel d) eqn:Hd.
  - by rewrite decide_True.
  - rewrite decide_False by done. intros Hn. by rewrite (IH Hn).
Qed.

Lemma delete_first_none (sel : Doc → bool) docs :
  filter (λ d, sel d = true) docs = [] →
  delete_first sel docs = (docs, 0).
Proof.
  induction docs as [|d docs IH]; [done|].
  rewrite filter_cons. simpl. destruct (sel d) eqn:Hd.
  - by rewrite decide_True.
  - rewrite decide_False by done. intros Hn. by rewrite (IH Hn).
Qed.

Lemma keep_all (sel : Doc → bool) docs :
  filter (λ d, sel d = true) docs = [] →
  filter (λ d, sel d ≠ true) docs = docs.
Proof.
  induction docs as [|d docs IH]; [done|].
  rewrite !filter_cons. destruct (sel d) eqn:Hd.
  - by rewrite decide_True.
  - rewrite decide_False by done. rewrite decide_True by done.
    intros Hn. by rewrite (IH Hn).
Qed.

Lemma take_faults_1 w :
  no_fault 1 w → take_fault w = (NoFault, tail (faults w)).
Proof.
  unfold no_fault, take_fault. destruct (faults w) as [|f fs]; [done|].
  simpl. by intros [-> _]%Forall_cons.
Qed.

Section Claims.
Context `{Driver} `{IdAuthority}.

Lemma validateId_pure E id w : (validateId E id w).2 = w.
Proof. unfold validateId. by repeat case_match. Qed.

(** C1, amended: in native-id mode, a string that is not a valid
    [ObjectId] makes [findById] and [updateById] return (not throw) a
    failure envelope whose message is "Invalid ObjectId: " followed by the
    string, and the world is left as it was: no store call is made. *)
Theorem malformed_id_is_a_failure_envelope
    (E : MongoCRUD) (s : string) (update : UpdateFilter) (w : World) :
  truthy (useObjectId (options E)) = true →
  ObjectId_isValid s = false →
  findById E (IdString s) w
  = (inr (mkFind false None (Some ("Invalid ObjectId: " ++ s))), w) ∧
  updateById E (IdString s) update w
  = (inr (mkUpdate false None 0 (Some ("Invalid ObjectId: " ++ s))), w).
Proof.
  intros Hmode Hbad.
  unfold findById, updateById, try_catch, bind, validateId.
  by rewrite Hmode, Hbad.
Qed.

(** C2, amended: an engine takes its collection handle from the
    manager's database handle once, in its constructor; every operation
    makes its store calls on that stored handle, leaves the manager alone,
    and returns the same result whatever state the manager is in when the
    operation is called. *)
Theorem operations_use_the_handle_of_construction
    (sch : ZodSchema) (opts : CrudOptions) (w w' : World) (E : MongoCRUD) :
  new_MongoCRUD sch opts w = (inr E, w') →
  w' = w ∧
  getDb (manager w) = inr (coll_db (collection E)) ∧
  coll_name (collection E) = collectionName opts ∧
  (∀ data, on_handle (collection E) (create E data)) ∧
  (∀ id, on_handle (collection E) (findById E id)) ∧
  (∀ flt o, on_handle (collection E) (findMany E flt o)) ∧
  (∀ id u, on_handle (collection E) (updateById E id u)) ∧
  (∀ id, on_handle (collection E) (deleteById E id)) ∧
  (∀ flt, on_handle (collection E) (deleteMany E flt)) ∧
  (∀ id, on_handle (collection E) (exists_ E id)) ∧
  (∀ flt, on_handle (collection E) (count E flt)).
Proof.
  intros Hnew.
  assert (w' = w ∧ getDb (manager w) = inr (coll_db (collection E)) ∧
          coll_name (collection E) = collectionName opts) as (? & ? & ?).
  { unfold new_MongoCRUD in Hnew.
    destruct (getDb (manager w)) as [msg|d]; by simplify_eq. }
  do 3 (split; [done|]).
  repeat apply conj; intros;
    auto using create_on_handle, findById_on_handle, findMany_on_handle,
      updateById_on_handle, deleteById_on_handle,
      deleteMany_engine_on_handle, exists_on_handle, count_on_handle.
Qed.

(** C5: when the schema rejects the input, [create] returns a failure and
    leaves the world as it was (no store call); when the rejection is a
    [ZodError], the message is "Validation failed: " followed by every
    issue, so each issue occurs in it.  When the payload of [updateById]
    has a [$set] section that the partial schema rejects, the result is a
    failure and the world is left as it was. *)
Theorem rejected_input_never_reaches_the_store
    (E : MongoCRUD) (data : Doc) (id : IdType) (update : UpdateFilter)
    (fields : gmap string Value) (w : World) :
  (∀ errors, parse (schema E) data = ZodError errors →
     create E data w
     = (inr (mkCreate false None None
               (Some ("Validation failed: " ++ errorMessages errors))), w) ∧
     ∀ err, err ∈ errors →
       occurs_in (show_issue err)
         ("Validation failed: " ++ errorMessages errors)) ∧
  ((∀ d, parse (schema E) data ≠ ParseOk d) →
     ∃ msg, create E data w = (inr (mkCreate false None None (Some msg)), w)) ∧
  (update !! "$set" = Some fields →
   (∀ d, partial_parse (schema E) fields ≠ ParseOk d) →
     ∃ msg, updateById E id update w
            = (inr (mkUpdate false None 0 (Some msg)), w)).
Proof.
  split; [|split].
  - intros errors Hp. split.
    + unfold create, try_catch, bind, validateData. by rewrite Hp.
    + intros err Herr. apply occurs_in_suffix, join_occurs.
      unfold errorMessages. by apply list_elem_of_fmap_2.
  - intros Hp. unfold create, try_catch, bind, validateData.
    destruct (parse (schema E) data) as [d|errors|e]; [by destruct (Hp d)|..];
      simpl; eauto.
  - intros Hset Hp. unfold updateById, try_catch, bind. rewrite Hset.
    pose proof (validateId_pure E id w) as Hw.
    destruct (validateId E id w) as [[e|vid] w1]; simpl in Hw; subst w1;
      [unfold ret; eauto|].
    destruct (partial_parse (schema E) fields) as [d|errors|e];
      [by destruct (Hp d)|..]; unfold throw, ret; eauto.
Qed.

(** C6: with no transport error on its two store calls, [findMany]
    succeeds; the page is the selected documents, arranged, with the first
    [skip] of them dropped when [skip] (default 0) is positive and cut to
    [limit] of them when [limit] (default 100) is positive, a [limit] of
    zero or less leaving the page uncut; the total is the number of
    documents the filter selects, whatever [skip] and [limit] are.  With
    three selected documents, [limit] 2 and [skip] 1 give two documents
    and a total of three. *)
Theorem findMany_page_and_total
    (E : MongoCRUD) (flt : Filter) (opts : FindManyOptions) (w : World) :
  no_throw 2 w →
  let lim := default 100%Z (limit opts) in
  let sk := default 0%Z (skip opts) in
  let all := arrange (findOptions opts) (selected flt w) in
  let skipped := if (0 <? sk)%Z then drop (Z.to_nat sk) all else all in
  let paged := if (0 <? lim)%Z then take (Z.to_nat lim) skipped else skipped in
  (findMany E flt opts w).1
  = inr (mkFindManyResult true paged (length (selected flt w)) None) ∧
  (length (selected flt w) = 3%nat →
   limit opts = Some 2%Z → skip opts = Some 1%Z →
   length paged = 2%nat).
Proof.
  intros Hq lim sk all skipped paged. split.
  - unfold findMany, try_catch, bind, toArray, countDocuments, take_fault,
      after_call. simpl.
    unfold no_throw in Hq.
    assert (∀ cur, cur_filter cur = flt → cur_options cur = findOptions opts →
              cur_skip cur = (if (0 <? sk)%Z then sk else 0%Z) →
              cur_limit cur = (if (0 <? lim)%Z then lim else 0%Z) →
              page cur (documents w) = paged) as Hpage.
    { intros cur Hf Ho Hs Hl. unfold page. rewrite Hf, Ho, Hs, Hl.
      subst paged skipped all. unfold selected.
      destruct (0 <? sk)%Z eqn:Hsk, (0 <? lim)%Z eqn:Hlim;
        try (rewrite decide_False by lia); try (rewrite decide_True by done);
        try (replace (Z.abs lim) with lim by lia); done. }
    fold lim sk.
    destruct (faults w) as [|f1 [|f2 fs]]; simpl in *.
    + rewrite Hpage by (by repeat case_match). done.
    + apply Forall_cons in Hq as [H1 _].
      destruct f1; try done; simpl;
        rewrite Hpage by (by repeat case_match); done.
    + apply Forall_cons in Hq as [H1 [H2 _]%Forall_cons].
      destruct f1; try done; simpl; destruct f2; try done; simpl;
        rewrite Hpage by (by repeat case_match); done.
  - intros Hthree Hlim Hsk. subst paged skipped all lim sk.
    rewrite Hlim, Hsk. simpl.
    rewrite length_take, length_drop, arrange_length, Hthree. done.
Qed.

(** C7: for an identifier that passes [validateId] and selects no
    document, [findById] returns (it does not throw) a failure envelope
    with no data whose message is "Document with id <id> not found" when
    the lookup meets no transport error; when the lookup throws, the
    envelope carries the message of what was thrown instead. *)
Theorem findById_absent_is_not_found
    (E : MongoCRUD) (id vid : IdType) (w : World) :
  validateId E id w = (inr vid, w) →
  selected (by_id vid) w = [] →
  (no_throw 1 w →
     (findById E id w).1
     = inr (mkFind false None
              (Some ("Document with id " ++ show_id id ++ " not found"))) ∧
     occurs_in "not found" ("Document with id " ++ show_id id ++ " not found")) ∧
  (∀ e fs, faults w = Throw e :: fs →
     (findById E id w).1
     = inr (mkFind false None (Some (handleError e "findById")))).
Proof.
  intros Hid Hnone. unfold selected in Hnone. split.
  - intros Hq. split.
    + unfold findById, try_catch, bind. rewrite Hid.
      unfold findOne, take_fault, no_throw in *. rewrite Hnone.
      destruct (faults w) as [|f fs]; [done|].
      apply Forall_cons in Hq as [Hf _]. by destruct f.
    + exists ("Document with id " ++ show_id id ++ " "), "".
      by rewrite append_nil_r, !append_assoc.
  - intros e fs Hf. unfold findById, try_catch, bind. rewrite Hid.
    unfold findOne, take_fault. by rewrite Hf.
Qed.

(** C9, amended: when the update payload has no [$set] section,
    [updateById] never consults the schema: its outcome is the same under
    any schema.  The identifier is still validated.  When [validateId]
    accepts it, the first thing [updateById] does is hand the payload, as
    it is, to the store's [updateOne]; when [validateId] rejects it,
    nothing is sent to the store and the rejection comes back as a failure
    envelope.  One of the two always happens. *)
Theorem updateById_without_set_is_unchecked
    (E : MongoCRUD) (id : IdType) (update : UpdateFilter) (w : World) :
  update !! "$set" = None →
  (∀ sch, updateById (mkEngine (collection E) sch (options E)) id update w
          = updateById E id update w) ∧
  (∀ vid, validateId E id w = (inr vid, w) →
     ∃ rest, calls (updateById E id update w).2
             = (calls w
                ++ (collection E, UpdateOne (by_id vid) update) :: rest)%list) ∧
  (∀ e, validateId E id w = (inl e, w) →
     updateById E id update w
     = (inr (mkUpdate false None 0 (Some (handleError e "updateById"))), w)) ∧
  ((∃ vid, validateId E id w = (inr vid, w))
   ∨ (∃ e, validateId E id w = (inl e, w))).
Proof.
  intros Hset. split; [|split; [|split]].
  - intros sch. unfold updateById. by rewrite Hset.
  - intros vid Hid. unfold updateById, try_catch, bind. rewrite Hid, Hset.
    unfold ret at 1. unfold updateOne, take_fault, after_call.
    destruct (update_first _ _ _) as [docs [m n]].
    destruct (faults w) as [|[|e|] fs]; simpl.
    + unfold findOne, take_fault, after_call, ret; simpl.
      eexists. by rewrite <- app_assoc.
    + unfold findOne, take_fault, after_call, ret; simpl.
      destruct fs as [|[|e|] fs]; simpl; eexists; by rewrite <- app_assoc.
    + by exists [].
    + by exists [].
  - intros e Hid. unfold updateById, try_catch, bind. by rewrite Hid.
  - pose proof (validateId_pure E id w) as Hw.
    destruct (validateId E id w) as [[e|vid] w'] eqn:Hid; simpl in Hw; subst w'.
    + right. by exists e.
    + left. by exists vid.
Qed.

(** ** Result envelopes *)

Ltac settle :=
  unfold try_catch, bind, ret, throw; simpl;
  repeat (case_match; simpl in *; simplify_eq);
  eexists; (split; [reflexivity|]); split; simpl; intros; done.

Lemma create_envelope_ok E data w :
  ∃ r, (create E data w).1 = inr r ∧ create_envelope r.
Proof. unfold create. settle. Qed.

Lemma findById_envelope_ok E id w :
  ∃ r, (findById E id w).1 = inr r ∧ find_envelope r.
Proof. unfold findById. settle. Qed.

Lemma findMany_envelope_ok E flt opts w :
  ∃ r, (findMany E flt opts w).1 = inr r ∧ findMany_envelope r.
Proof. unfold findMany. settle. Qed.

Lemma updateById_envelope_ok E id u w :
  ∃ r, (updateById E id u w).1 = inr r ∧ update_envelope r.
Proof. unfold updateById. settle. Qed.

Lemma deleteById_envelope_ok E id w :
  ∃ r, (deleteById E id w).1 = inr r ∧ delete_envelope r.
Proof.
  unfold deleteById, try_catch, bind, ret, delete_outcome.
  repeat (case_match; simpl in *; simplify_eq); by eexists.
Qed.

Lemma deleteMany_envelope_ok E flt w :
  ∃ r, (deleteMany E flt w).1 = inr r ∧ delete_envelope r.
Proof.
  unfold deleteMany, try_catch, bind, ret, delete_outcome.
  repeat (case_match; simpl in *; simplify_eq); by eexists.
Qed.

(** C8, amended: every operation returns an envelope in which a failure
    carries no data and a success carries no error message.  An update
    that matches no document and a delete that removes none are successes
    with absent data and a count of zero; a [findById] that finds no
    document is a failure whose message says so. *)
Theorem envelopes_and_business_outcomes (E : MongoCRUD) (w : World) :
  (∀ data, ∃ r, (create E data w).1 = inr r ∧ create_envelope r) ∧
  (∀ id, ∃ r, (findById E id w).1 = inr r ∧ find_envelope r) ∧
  (∀ flt opts, ∃ r, (findMany E flt opts w).1 = inr r ∧ findMany_envelope r) ∧
  (∀ id u, ∃ r, (updateById E id u w).1 = inr r ∧ update_envelope r) ∧
  (∀ id, ∃ r, (deleteById E id w).1 = inr r ∧ delete_envelope r) ∧
  (∀ flt, ∃ r, (deleteMany E flt w).1 = inr r ∧ delete_envelope r) ∧
  (∀ id vid, validateId E id w = (inr vid, w) →
     selected (by_id vid) w = [] → no_fault 2 w →
     (∀ u, (u !! "$set" = None ∨
            ∃ fields d, u !! "$set" = Some fields ∧
                        partial_parse (schema E) fields = ParseOk d) →
        (updateById E id u w).1 = inr (mkUpdate true None 0 None)) ∧
     (deleteById E id w).1 = inr (mkDelete true 0 None) ∧
     (findById E id w).1
     = inr (mkFind false None
              (Some ("Document with id " ++ show_id id ++ " not found")))) ∧
  (∀ flt, selected flt w = [] → no_fault 1 w →
     (deleteMany E flt w).1 = inr (mkDelete true 0 None)).
Proof.
  repeat apply conj;
    auto using create_envelope_ok, findById_envelope_ok,
      findMany_envelope_ok, updateById_envelope_ok, deleteById_envelope_ok,
      deleteMany_envelope_ok.
  - intros id vid Hid Hnone Hcalm. unfold selected in Hnone.
    assert (∃ fs, faults w = fs ∧
                  (fs = [] ∨ fs = [NoFault] ∨
                   ∃ fs', fs = NoFault :: NoFault :: fs')) as (fs & Hfs & Hshape).
    { exists (faults w). split; [done|]. unfold no_fault in Hcalm.
      destruct (faults w) as [|f1 [|f2 fs']]; auto.
      - apply Forall_cons in Hcalm as [-> _]. auto.
      - apply Forall_cons in Hcalm as [-> [-> _]%Forall_cons]. eauto. }
    repeat apply conj.
    + intros u Hu. unfold updateById, try_catch, bind. rewrite Hid.
      assert (match u !! "$set" with
              | Some fields =>
                  match partial_parse (schema E) fields with
                  | ParseOk _ => ret ()
                  | ZodError errors =>
                      throw (ErrorObj ("Update validation failed: "
                                       ++ errorMessages errors))
                  | ParseThrows e => throw e
                  end
              | None => ret ()
              end w = (inr (), w)) as ->.
      { destruct Hu as [->|(fields & d & -> & ->)]; done. }
      unfold updateOne, findOne, take_fault, after_call.
      rewrite (update_first_none _ _ _ Hnone), Hfs.
      destruct Hshape as [->|[->|(fs' & ->)]]; simpl; by rewrite Hnone.
    + unfold deleteById, try_catch, bind. rewrite Hid.
      unfold deleteOne, take_fault, after_call.
      rewrite (delete_first_none _ _ Hnone), Hfs.
      destruct Hshape as [->|[->|(fs' & ->)]]; done.
    + unfold findById, try_catch, bind. rewrite Hid.
      unfold findOne, take_fault, after_call. rewrite Hnone, Hfs.
      destruct Hshape as [->|[->|(fs' & ->)]]; done.
  - intros flt Hnone Hcalm. unfold selected in Hnone.
    unfold deleteMany, try_catch, bind, Mongo.deleteMany.
    rewrite (take_faults_1 _ Hcalm), (keep_all _ _ Hnone), Nat.sub_diag.
    done.
Qed.

End Claims.

(** ** The properties on the sample store *)

Import Sample.

(** C1, as stated, fails: in native-id mode [findById] and [updateById]
    do not throw on a malformed identifier; the error raised by
    [validateId] is caught by the operation's own [try] and comes back as
    a failure envelope. *)
Lemma malformed_id_does_not_throw :
  ObjectId_isValid "invalid-object-id" = false ∧
  truthy (useObjectId (options nativeEngine)) = true ∧
  findById nativeEngine (IdString "invalid-object-id") emptyWorld
  = (inr (mkFind false None (Some "Invalid ObjectId: invalid-object-id")),
     emptyWorld) ∧
  updateById nativeEngine (IdString "invalid-object-id")
    {["$set" := {["name" := VStr "Ada"]}]} emptyWorld
  = (inr (mkUpdate false None 0 (Some "Invalid ObjectId: invalid-object-id")),
     emptyWorld) ∧
  (∀ e, (findById nativeEngine (IdString "invalid-object-id") emptyWorld).1
        ≠ inl e).
Proof. repeat split. intros e He. vm_compute in He. discriminate. Qed.

Lemma malformed_id_is_a_failure_envelope_witness :
  truthy (useObjectId (options nativeEngine)) = true ∧
  ObjectId_isValid "not-an-id" = false ∧
  findById nativeEngine (IdString "not-an-id") emptyWorld
  = (inr (mkFind false None (Some "Invalid ObjectId: not-an-id")), emptyWorld).
Proof.
  split; [reflexivity|]. split; [reflexivity|].
  exact (proj1 (malformed_id_is_a_failure_envelope nativeEngine "not-an-id"
                  ∅ emptyWorld eq_refl eq_refl)).
Defined.

(** C2, as stated, fails: an engine built while the manager held the
    handle of its first client keeps making its store calls on that
    handle after the manager has disconnected and connected again, when
    the manager's current handle is that of the second client. *)
Lemma engine_keeps_first_handle_after_reconnect :
  new_MongoCRUD userSchema (mkOptions (Some true) "users") emptyWorld
  = (inr nativeEngine, emptyWorld) ∧
  getDb reconnected = inr (mkDb 1 "test") ∧
  fst <$> calls (findById nativeEngine (IdString "507f1f77bcf86cd799439011")
                   (with_manager reconnected emptyWorld)).2
  = [mkCollection (mkDb 0 "test") "users"].
Proof. repeat split. Qed.

Lemma operations_use_the_handle_of_construction_witness :
  new_MongoCRUD userSchema (mkOptions (Some true) "users") emptyWorld
  = (inr nativeEngine, emptyWorld) ∧
  on_handle users (findById nativeEngine (IdString "507f1f77bcf86cd799439011")).
Proof.
  split; [reflexivity|].
  destruct (operations_use_the_handle_of_construction userSchema
              (mkOptions (Some true) "users") emptyWorld emptyWorld
              nativeEngine eq_refl) as (_ & _ & _ & _ & Hfind & _).
  exact (Hfind (IdString "507f1f77bcf86cd799439011")).
Defined.

Lemma rejected_input_never_reaches_the_store_witness :
  parse (schema externalEngine) badUser
  = ZodError [mkIssue [Key "name"] "Expected string";
              mkIssue [Key "age"] "Number must be greater than or equal to 0"] ∧
  create externalEngine badUser emptyWorld
  = (inr (mkCreate false None None
            (Some "Validation failed: name: Expected string, age: Number must be greater than or equal to 0")),
     emptyWorld) ∧
  badUpdate !! "$set" = Some (<["age" := VNum (-1)]> ∅) ∧
  ∃ msg, updateById externalEngine (IdString "u2") badUpdate threeUsers
         = (inr (mkUpdate false None 0 (Some msg)), threeUsers).
Proof.
  split; [reflexivity|].
  destruct (rejected_input_never_reaches_the_store externalEngine badUser
              (IdString "u2") badUpdate (<["age" := VNum (-1)]> ∅) emptyWorld)
    as (Hcreate & _ & _).
  split; [exact (proj1 (Hcreate _ eq_refl))|].
  split; [reflexivity|].
  destruct (rejected_input_never_reaches_the_store externalEngine badUser
              (IdString "u2") badUpdate (<["age" := VNum (-1)]> ∅) threeUsers)
    as (_ & _ & Hupdate).
  apply Hupdate; [reflexivity|].
  intros d Hd. vm_compute in Hd. discriminate.
Defined.

Lemma findMany_page_and_total_witness :
  no_throw 2 threeUsers ∧
  length (selected ∅ threeUsers) = 3%nat ∧
  ∃ docs, (findMany externalEngine ∅ (mkFindMany (Some 2%Z) (Some 1%Z) ∅)
             threeUsers).1
          = inr (mkFindManyResult true docs 3 None) ∧ length docs = 2%nat.
Proof.
  assert (no_throw 2 threeUsers) as Hq by constructor.
  split; [exact Hq|]. split; [reflexivity|].
  destruct (findMany_page_and_total externalEngine ∅
              (mkFindMany (Some 2%Z) (Some 1%Z) ∅) threeUsers Hq)
    as [Hpage Hlen].
  eexists. split; [exact Hpage|].
  exact (Hlen eq_refl eq_refl eq_refl).
Defined.

Lemma findById_absent_is_not_found_witness :
  let down := mkWorld (documents threeUsers) connected
                [Throw (ErrorObj "connection closed")] [] 0 in
  (validateId externalEngine (IdString "u9") threeUsers
   = (inr (IdString "u9"), threeUsers) ∧
   selected (by_id (IdString "u9")) threeUsers = [] ∧
   no_throw 1 threeUsers ∧
   (findById externalEngine (IdString "u9") threeUsers).1
   = inr (mkFind false None (Some "Document with id u9 not found"))) ∧
  (faults down = [Throw (ErrorObj "connection closed")] ∧
   (findById externalEngine (IdString "u9") down).1
   = inr (mkFind false None (Some "connection closed"))).
Proof.
  assert (no_throw 1 threeUsers) as Hq by constructor.
  assert (selected (by_id (IdString "u9")) threeUsers = []) as Hsel
    by reflexivity.
  split.
  - split; [reflexivity|]. split; [exact Hsel|]. split; [exact Hq|].
    destruct (findById_absent_is_not_found externalEngine (IdString "u9")
                (IdString "u9") threeUsers eq_refl Hsel) as [Hfound _].
    exact (proj1 (Hfound Hq)).
  - split; [reflexivity|].
    destruct (findById_absent_is_not_found externalEngine (IdString "u9")
                (IdString "u9")
                (mkWorld (documents threeUsers) connected
                   [Throw (ErrorObj "connection closed")] [] 0)
                eq_refl Hsel) as [_ Hdown].
    exact (Hdown _ _ eq_refl).
Defined.

(** C8, as stated, fails on the not-found outcome: [findById] on an
    identifier no document has, with no fault anywhere, is a failure. *)
Lemma not_found_is_a_failure :
  selected (by_id (IdString "u9")) threeUsers = [] ∧
  faults threeUsers = [] ∧
  (findById externalEngine (IdString "u9") threeUsers).1
  = inr (mkFind false None (Some "Document with id u9 not found")).
Proof. repeat split. Qed.

Lemma envelopes_and_business_outcomes_witness :
  let nobody : Filter := {["name" := VStr "Nobody"]} in
  (validateId externalEngine (IdString "u9") threeUsers
   = (inr (IdString "u9"), threeUsers) ∧
   selected (by_id (IdString "u9")) threeUsers = [] ∧
   no_fault 2 threeUsers ∧
   (updateById externalEngine (IdString "u9")
      {["$inc" := <["age" := VNum 1]> ∅]} threeUsers).1
   = inr (mkUpdate true None 0 None) ∧
   (updateById externalEngine (IdString "u9")
      {["$set" := <["age" := VNum 1]> ∅]} threeUsers).1
   = inr (mkUpdate true None 0 None) ∧
   (deleteById externalEngine (IdString "u9") threeUsers).1
   = inr (mkDelete true 0 None)) ∧
  (selected nobody threeUsers = [] ∧ no_fault 1 threeUsers ∧
   (deleteMany externalEngine nobody threeUsers).1
   = inr (mkDelete true 0 None)).
Proof.
  assert (no_fault 2 threeUsers) as Hq by constructor.
  assert (no_fault 1 threeUsers) as Hq1 by constructor.
  assert (selected (by_id (IdString "u9")) threeUsers = []) as Hsel
    by reflexivity.
  assert (selected {["name" := VStr "Nobody"]} threeUsers = []) as Hnobody
    by reflexivity.
  destruct (envelopes_and_business_outcomes externalEngine threeUsers)
    as (_ & _ & _ & _ & _ & _ & Hzero & Hmany).
  destruct (Hzero (IdString "u9") (IdString "u9") eq_refl Hsel Hq)
    as (Hupdate & Hdelete & _).
  split.
  - split; [reflexivity|]. split; [exact Hsel|]. split; [exact Hq|].
    split; [|split; [|exact Hdelete]].
    + apply Hupdate. left. reflexivity.
    + apply Hupdate. right.
      exists (<["age" := VNum 1]> ∅), (<["age" := VNum 1]> ∅).
      split; reflexivity.
  - split; [exact Hnobody|]. split; [exact Hq1|].
    exact (Hmany _ Hnobody Hq1).
Defined.

(** C9, as stated, fails: a payload with no [$set] section does not
    switch every validation off.  In native-id mode an identifier that is
    not a valid [ObjectId] is still rejected by [validateId], and the
    payload is not sent to the store at all. *)
Lemma updateById_without_set_validates_the_id :
  let inc : UpdateFilter := {["$inc" := <["age" := VNum (-200)]> ∅]} in
  inc !! "$set" = None ∧
  updateById nativeEngine (IdString "u2") inc threeUsers
  = (inr (mkUpdate false None 0 (Some "Invalid ObjectId: u2")), threeUsers) ∧
  calls (updateById nativeEngine (IdString "u2") inc threeUsers).2
  = calls threeUsers.
Proof. repeat split. Qed.

Lemma updateById_without_set_is_unchecked_witness :
  let inc : UpdateFilter := {["$inc" := <["age" := VNum (-200)]> ∅]} in
  inc !! "$set" = None ∧
  (validateId externalEngine (IdString "u2") threeUsers
   = (inr (IdString "u2"), threeUsers) ∧
   ∃ rest, calls (updateById externalEngine (IdString "u2") inc threeUsers).2
           = (calls threeUsers
              ++ (users, UpdateOne (by_id (IdString "u2")) inc) :: rest)%list) ∧
  (validateId nativeEngine (IdString "u2") threeUsers
   = (inl (ErrorObj "Invalid ObjectId: u2"), threeUsers) ∧
   updateById nativeEngine (IdString "u2") inc threeUsers
   = (inr (mkUpdate false None 0
             (Some (handleError (ErrorObj "Invalid ObjectId: u2")
                      "updateById"))), threeUsers)).
Proof.
  assert (({["$inc" := <["age" := VNum (-200)]> ∅]} : UpdateFilter) !! "$set"
          = None) as Hset by reflexivity.
  split; [exact Hset|]. split.
  - split; [reflexivity|].
    destruct (updateById_without_set_is_unchecked externalEngine
                (IdString "u2") _ threeUsers Hset) as (_ & Hsent & _).
    exact (Hsent (IdString "u2") eq_refl).
  - split; [reflexivity|].
    destruct (updateById_without_set_is_unchecked nativeEngine
                (IdString "u2") _ threeUsers Hset) as (_ & _ & Hrejected & _).
    exact (Hrejected (ErrorObj "Invalid ObjectId: u2") eq_refl).
Defined.

End CrudFacts.

(** * Further properties of the connection lifecycle manager *)

Module ReachFacts.
Import Connection Reach ConnectionFacts.

Lemma in_flight_snoc ts t :
  in_flight (ts ++ [t])
  = (in_flight ts + (if decide (t = ConnectAwaiting) then 1 else 0))%nat.
Proof.
  unfold in_flight. rewrite filter_app, length_app, filter_cons.
  by destruct (decide (t = ConnectAwaiting)).
Qed.

Lemma in_flight_insert ts i t t' :
  ts !! i = Some t →
  (in_flight (<[i:=t']> ts) + (if decide (t = ConnectAwaiting) then 1 else 0)
   = in_flight ts + (if decide (t' = ConnectAwaiting) then 1 else 0))%nat.
Proof.
  unfold in_flight. revert i.
  induction ts as [|x ts IH]; intros [|i] Hi; simplify_eq/=.
  - rewrite !filter_cons.
    destruct (decide (t = _)), (decide (t' = _)); simpl; lia.
  - rewrite !filter_cons. specialize (IH i Hi).
    destruct (decide (x = _)); simpl; lia.
Qed.

Lemma resolved_below_mono n m ts :
  (n ≤ m)%nat → resolved_below n ts → resolved_below m ts.
Proof. intros Hnm Hts i d Hi. specialize (Hts i d Hi). lia. Qed.

Lemma resolved_below_snoc n ts t :
  resolved_below n ts →
  (∀ d, t = ConnectResolved d → (db_client d < n)%nat) →
  resolved_below n (ts ++ [t]).
Proof.
  intros Hts Ht i d [[_ Hi]|[_ Hi]]%lookup_snoc_Some; [by eapply Hts|].
  by apply Ht.
Qed.

Lemma resolved_below_insert n ts i t :
  resolved_below n ts →
  (∀ d, t = ConnectResolved d → (db_client d < n)%nat) →
  resolved_below n (<[i:=t]> ts).
Proof.
  intros Hts Ht j d [(_ & Hj & _)|[_ Hj]]%list_lookup_insert_Some.
  - by apply Ht.
  - by eapply Hts.
Qed.

Lemma registrations_rounds s k : registrations s (rounds k) = k.
Proof.
  induction k as [|k IH]; [done|].
  unfold registrations in *. simpl. rewrite filter_app, length_app, IH.
  destruct s; simpl; rewrite ?Nat.add_1_r; reflexivity.
Qed.

Lemma sound_boot cfg : Sound cfg (boot (idle cfg)).
Proof.
  constructor; simpl; try done.
  - by exists 0.
Qed.

Ltac easy_fields :=
  repeat match goal with
  | |- ∃ k, rounds ?k' = rounds k ∧ _ => exists k'; split; [reflexivity|lia]
  | |- ∃ k, (rounds ?k' ++ _)%list = rounds k ∧ _ =>
      exists (S k'); split; [reflexivity|lia]
  | |- resolved_below _ (_ ++ [_]) => apply resolved_below_snoc
  | |- resolved_below _ (<[_:=_]> _) => apply resolved_below_insert
  | |- resolved_below _ _ => eassumption
  | |- resolved_below _ _ => eapply resolved_below_mono; [|eassumption]; lia
  | H : ∀ c, Some ?x = Some c → (c < _)%nat |- _ => specialize (H x eq_refl)
  | H : ∀ d, Some ?x = Some d → _ |- _ => specialize (H x eq_refl)
  | H : true = true → _ |- _ => specialize (H eq_refl)
  | H : _ ∧ _ |- _ => destruct H
  | |- _ => progress (intros; simplify_eq/=)
  | |- _ => done
  | |- _ => lia
  | |- _ => by eauto
  end.

Lemma sound_shutdown_call cfg p : Sound cfg p → Sound cfg (shutdown_call p).
Proof.
  intros HS.
  destruct p as [[cl d cf ic ig] ts ls cm ca cc sr ex]; simpl in *; subst.
  destruct HS as [Hcfg Hh Hn Hf Hc Hcl Hr Hfr [k [Hl Hk]] Hx Hkl];
    simpl in *; subst.
  unfold shutdown_call, spawn, bump_close, bump_shutdown; simpl.
  destruct cl as [c|]; simpl;
    constructor; simpl; rewrite ?in_flight_snoc, ?Hf in *; easy_fields.
Qed.

Lemma sound_emit cfg s ls p : Sound cfg p → Sound cfg (emit s ls p).
Proof.
  revert p. induction ls as [|l ls IH]; intros p HS; [done|].
  simpl. apply IH. destruct (decide (l = s)); [|done].
  by apply sound_shutdown_call.
Qed.

Lemma sound_step cfg p e : Sound cfg p → Sound cfg (step p e).
Proof.
  intros HS. unfold step. destruct (exited p) as [x|] eqn:Hex; [done|].
  destruct p as [[cl d cf ic ig] ts ls cm ca cc sr ex]; simpl in *; subst.
  pose proof HS as HS0.
  destruct HS as [Hcfg Hh Hn Hf Hc Hcl Hr Hfr [k [Hl Hk]] Hx Hkl];
    simpl in *; subst.
  destruct e as [| |i|i r|i r|s|i|cause|i cause].
  - unfold connect_call, spawn; simpl. destruct d as [d|].
    + destruct (Hh d eq_refl) as (-> & -> & -> & Hname). simpl.
      unfold set_task; simpl. rewrite insert_at_end.
      constructor; simpl; rewrite ?in_flight_snoc, ?Hf in *; easy_fields.
    + rewrite (Hn eq_refl) in *. destruct ig; simpl.
      * constructor; simpl; rewrite ?in_flight_snoc, ?Hf in *; easy_fields.
      * unfold set_task; simpl. rewrite insert_at_end.
        constructor; simpl; rewrite ?in_flight_snoc, ?Hf in *; easy_fields.
  - unfold disconnect_call, spawn, bump_close; simpl.
    destruct cl as [c|]; simpl;
      constructor; simpl; rewrite ?in_flight_snoc, ?Hf in *; easy_fields.
  - destruct (ts !! i) as [t|] eqn:Hi; [|exact HS0].
    destruct t; try exact HS0.
    unfold connect_wake; simpl.
    destruct ig; [exact HS0|].
    unfold connect_after_wait, set_task; simpl.
    pose proof (in_flight_insert ts i _ ConnectAwaiting Hi) as Hfa.
    destruct d as [d|]; simpl.
    + pose proof (in_flight_insert ts i _ (ConnectResolved d) Hi) as Hfd.
      constructor; simpl; easy_fields.
    + constructor; simpl; easy_fields.
  - destruct (ts !! i) as [t|] eqn:Hi; [|exact HS0].
    destruct t; try exact HS0.
    unfold connect_settle, set_task, set_mgr, lower_flag,
      setupShutdownHandlers; simpl.
    assert (ig = true) as ->.
    { destruct ig; [done|]. 
      assert (0 < in_flight ts)%nat; [|lia].
      pose proof (in_flight_insert ts i _ ConnectPolling Hi) as Hfa.
      simpl in Hfa. lia. }
    assert (d = None) as ->.
    { destruct d as [d|]; [|done]. by destruct (Hh d eq_refl) as (_ & ? & _). }
    pose proof (in_flight_insert ts i _ (ConnectRejected "") Hi) as Hfa.
    destruct r as [cause|]; [|destruct cl as [c|]]; simpl.
    + pose proof (in_flight_insert ts i _ (ConnectRejected (connectFailed cause)) Hi).
      constructor; simpl; easy_fields.
    + pose proof (in_flight_insert ts i _ (ConnectResolved (mkDb c (dbName cfg))) Hi).
      constructor; simpl; easy_fields.
    + pose proof (in_flight_insert ts i _ (ConnectRejected (connectFailed "Cannot read properties of null (reading 'db')")) Hi).
      constructor; simpl; easy_fields.
  - unfold close_settle; simpl.
    destruct (ts !! i) as [t|] eqn:Hi; [|exact HS0].
    destruct t; try exact HS0.
    + pose proof (in_flight_insert ts i _ DisconnectResolved Hi).
      destruct r as [msg|]; simpl.
      * pose proof (in_flight_insert ts i _ (DisconnectRejected msg) Hi).
        constructor; simpl; easy_fields.
      * constructor; simpl; easy_fields.
    + destruct r as [msg|]; simpl.
      * pose proof (in_flight_insert ts i _ (ShutdownPending (Some msg)) Hi).
        constructor; simpl; easy_fields.
      * pose proof (in_flight_insert ts i _ (ShutdownPending None) Hi).
        constructor; simpl; easy_fields.
  - unfold deliver; simpl. destruct (decide _) as [Hz|Hz].
    + rewrite registrations_rounds in Hz. subst k.
      constructor; simpl; easy_fields.
      exists 0. split; [done|simpl; lia].
    + by apply sound_emit.
  - destruct (ts !! i) as [t|] eqn:Hi; [|exact HS0].
    destruct t; try exact HS0.
    pose proof (in_flight_insert ts i _ ShutdownExited Hi).
    unfold shutdown_resume. destruct r; simpl; constructor; simpl; easy_fields.
  - unfold connect_call_throwing, connect_refused, spawn; simpl.
    destruct d as [d|].
    + destruct (Hh d eq_refl) as (-> & -> & -> & Hname). simpl.
      unfold set_task; simpl. rewrite insert_at_end.
      constructor; simpl; rewrite ?in_flight_snoc, ?Hf in *; easy_fields.
    + rewrite (Hn eq_refl) in *. destruct ig; simpl.
      * constructor; simpl; rewrite ?in_flight_snoc, ?Hf in *; easy_fields.
      * unfold set_task; simpl. rewrite insert_at_end.
        constructor; simpl; rewrite ?in_flight_snoc, ?Hf in *; easy_fields.
  - destruct (ts !! i) as [t|] eqn:Hi; [|exact HS0].
    destruct t; try exact HS0.
    unfold connect_wake_throwing; simpl.
    destruct ig; [exact HS0|].
    unfold connect_refused, set_task; simpl.
    destruct d as [d|]; simpl.
    + pose proof (in_flight_insert ts i _ (ConnectResolved d) Hi) as Hfd.
      constructor; simpl; easy_fields.
    + pose proof (in_flight_insert ts i _
                    (ConnectRejected (connectFailed cause)) Hi) as Hfd.
      constructor; simpl; easy_fields.
Qed.

Lemma sound_run cfg p evs : Sound cfg p → Sound cfg (run p evs).
Proof.
  revert p. induction evs as [|e evs IH]; intros p HS; [done|].
  simpl. by apply IH, sound_step.
Qed.

Lemma sound_reachable cfg evs : Sound cfg (run (boot (idle cfg)) evs).
Proof. apply sound_run, sound_boot. Qed.

Lemma in_flight_pos ts i :
  ts !! i = Some ConnectAwaiting → (0 < in_flight ts)%nat.
Proof.
  intros Hi. pose proof (in_flight_insert ts i _ ConnectPolling Hi) as H.
  simpl in H. lia.
Qed.

Lemma listeners_step p e : ∃ l, listeners (step p e) = (listeners p ++ l)%list.
Proof.
  assert (∀ q, listeners q = listeners p →
            ∃ l, listeners q = (listeners p ++ l)%list) as Hsame
    by (intros q ->; exists []; by rewrite app_nil_r).
  assert (∀ q, listeners (shutdown_call q) = listeners q) as Hcall
    by (intros q; unfold shutdown_call; simpl; by destruct (client (mgr q))).
  assert (∀ s ls q, listeners (emit s ls q) = listeners q) as Hemit.
  { intros s ls. induction ls as [|l ls IH]; intros q; [done|].
    simpl. rewrite IH. destruct (decide (l = s)); [apply Hcall|done]. }
  unfold step. destruct (exited p); [by apply Hsame|].
  destruct e as [| |i|i r|i r|s|i|cause|i cause]; simpl.
  - unfold connect_call. simpl. repeat case_match; by apply Hsame.
  - unfold disconnect_call. case_match; by apply Hsame.
  - unfold connect_wake, connect_after_wait. repeat case_match; by apply Hsame.
  - unfold connect_settle. repeat case_match; try (by apply Hsame).
    simpl. eauto.
  - unfold close_settle. repeat case_match; by apply Hsame.
  - unfold deliver. case_match; [by apply Hsame|]. apply Hsame, Hemit.
  - unfold shutdown_resume. repeat case_match; by apply Hsame.
  - unfold connect_call_throwing, connect_refused. simpl.
    repeat case_match; by apply Hsame.
  - unfold connect_wake_throwing, connect_refused.
    repeat case_match; by apply Hsame.
Qed.

Lemma listeners_run p evs : ∃ l, listeners (run p evs) = (listeners p ++ l)%list.
Proof.
  revert p. induction evs as [|e evs IH]; intros p.
  - exists []. by rewrite app_nil_r.
  - destruct (IH (step p e)) as [l Hl].
    destruct (listeners_step p e) as [l' Hl'].
    exists (l' ++ l)%list. change (run (step p e) evs) with (run p (e :: evs)) in Hl.
    by rewrite Hl, Hl', app_assoc.
Qed.

(** ** The constructor's configuration *)

Lemma or_else_given a b u : a = Some u → u ≠ "" → or_else a b = u.
Proof. intros -> Hu. unfold or_else. by rewrite decide_False. Qed.

Lemma or_else_blank a b : blank a → or_else a b = b.
Proof. by intros [->| ->]. Qed.

(** X1: the constructor takes the connection string from the caller's
    configuration, else from the environment, else the default, passing
    over a missing or empty value at each stage, and likewise for the
    database name; every option the caller gives is kept, and each of the
    three defaults stands exactly when the caller gives no option of that
    name. *)
Theorem resolveConfig_precedence (env : Env) (c : option PartialConfig) :
  let r := resolveConfig env c in
  (∀ u, c ≫= p_uri = Some u → u ≠ "" → uri r = u) ∧
  (blank (c ≫= p_uri) →
     (∀ u, MONGODB_URI env = Some u → u ≠ "" → uri r = u) ∧
     (blank (MONGODB_URI env) → uri r = "mongodb://localhost:27017")) ∧
  (∀ n, c ≫= p_dbName = Some n → n ≠ "" → dbName r = n) ∧
  (blank (c ≫= p_dbName) →
     (∀ n, MONGODB_DB_NAME env = Some n → n ≠ "" → dbName r = n) ∧
     (blank (MONGODB_DB_NAME env) → dbName r = "test")) ∧
  (∀ k v, (c ≫= p_options) ≫= (λ o, o !! k) = Some v →
     Connection.options r !! k = Some v) ∧
  (∀ k, (c ≫= p_options) ≫= (λ o, o !! k) = None →
     Connection.options r !! k = defaultOptions !! k) ∧
  defaultOptions !! "maxPoolSize" = Some 10%Z ∧
  defaultOptions !! "serverSelectionTimeoutMS" = Some 5000%Z ∧
  defaultOptions !! "socketTimeoutMS" = Some 45000%Z.
Proof.
  simpl. repeat apply conj; try done.
  - intros u Hu Hne. by apply or_else_given.
  - intros Hb. rewrite or_else_blank by done. split.
    + intros u Hu Hne. by apply or_else_given.
    + intros He. by rewrite or_else_blank.
  - intros n Hn Hne. by apply or_else_given.
  - intros Hb. rewrite or_else_blank by done. split.
    + intros n Hn Hne. by apply or_else_given.
    + intros He. by rewrite or_else_blank.
  - intros k v Hk. apply lookup_union_Some_l.
    destruct (c ≫= p_options) as [o|]; simpl in *; done.
  - intros k Hk. rewrite lookup_union_r; [done|].
    destruct (c ≫= p_options) as [o|]; simpl in *; done.
Qed.

Lemma resolveConfig_precedence_witness :
  let env := mkEnv (Some "mongodb://env:27017") (Some "") in
  let c := Some (mkPartial (Some "") None
                   (Some (<["maxPoolSize" := 50%Z]> (<["appName" := 1%Z]> ∅)))) in
  blank (c ≫= p_uri) ∧ blank (c ≫= p_dbName) ∧ blank (MONGODB_DB_NAME env) ∧
  uri (resolveConfig env c) = "mongodb://env:27017" ∧
  dbName (resolveConfig env c) = "test" ∧
  Connection.options (resolveConfig env c) !! "maxPoolSize" = Some 50%Z ∧
  Connection.options (resolveConfig env c) !! "socketTimeoutMS" = Some 45000%Z.
Proof.
  pose (env := mkEnv (Some "mongodb://env:27017") (Some "")).
  pose (c := Some (mkPartial (Some "") None
                 (Some (<["maxPoolSize" := 50%Z]> (<["appName" := 1%Z]> ∅))))).
  assert (blank (c ≫= p_uri)) as Hu by (by right).
  assert (blank (c ≫= p_dbName)) as Hn by (by left).
  assert (blank (MONGODB_DB_NAME env)) as He by (by right).
  destruct (resolveConfig_precedence env c)
    as (_ & Huri & _ & Hname & Hkept & Hdef & _ & _ & Hsock).
  split; [exact Hu|]. split; [exact Hn|]. split; [exact He|].
  split; [|split; [|split]].
  - apply (proj1 (Huri Hu) "mongodb://env:27017"); [reflexivity|discriminate].
  - exact (proj2 (Hname Hn) He).
  - apply Hkept. reflexivity.
  - rewrite <- Hsock. apply Hdef. reflexivity.
Defined.

(** ** What holds after any sequence of events *)

(** X2: whatever has happened to a manager since its construction, its
    observers agree: [getDb()] succeeds exactly when [getClient()] does,
    exactly when [isConnectionActive()] is true, exactly when the
    connected flag is set and exactly when an engine can be constructed;
    the handle [getDb()] returns is the stored one, it is a handle on the
    configured database through the client [getClient()] returns, and
    [ping()] is never true on a manager that is not connected. *)
Theorem observers_agree (cfg : MongoConnectionConfig) (evs : list Event) :
  let m := mgr (run (boot (idle cfg)) evs) in
  config m = cfg ∧
  isConnectionActive m = isConnected m ∧
  (isConnected m = true ↔ ∃ d, getDb m = inr d) ∧
  (isConnected m = true ↔ ∃ c, getClient m = inr c) ∧
  (∀ d, getDb m = inr d →
     db m = Some d ∧ getClient m = inr (db_client d) ∧ db_name d = dbName cfg) ∧
  (isConnected m = false →
     getDb m = inl notEstablished ∧ getClient m = inl notEstablished ∧
     ∀ r, ping m r = false) ∧
  (∀ sch opts w, Mongo.manager w = m →
     isConnected m = true ↔ ∃ E, Crud.new_MongoCRUD sch opts w = (inr E, w)).
Proof.
  pose proof (sound_reachable cfg evs) as HS.
  destruct (run (boot (idle cfg)) evs) as [[cl d cf ic ig] ts ls cm ca cc sr ex].
  destruct HS as [Hcfg Hh Hn _ _ _ _ _ _ _ _]. simpl in *. subst cf.
  unfold isConnectionActive, getDb, getClient, ping, Crud.new_MongoCRUD, getDb.
  simpl. destruct d as [d|].
  - destruct (Hh d eq_refl) as (-> & -> & -> & Hname). simpl.
    split; [done|]. split; [done|].
    split; [split; eauto|]. split; [split; eauto|].
    split; [by intros d' [= <-]|]. split; [done|].
    intros sch opts w ->. simpl. split; eauto.
  - rewrite (Hn eq_refl). simpl.
    split; [done|]. split; [done|].
    split; [split; [done|by intros [? ?]]|].
    split; [split; [done|intros [? ?]; by destruct cl]|].
    split; [done|]. split; [by destruct cl|].
    intros sch opts w ->. simpl. split; [done|by intros [? ?]].
Qed.

(** X3: at any moment at most one connection attempt is in flight, and
    one is in flight exactly while the connecting flag is raised; while it
    is, the manager holds no handle; every client ever built was used for
    exactly one attempt. *)
Theorem single_flight (cfg : MongoConnectionConfig) (evs : list Event) :
  let p := run (boot (idle cfg)) evs in
  (in_flight (tasks p) ≤ 1)%nat ∧
  (in_flight (tasks p) = 1%nat ↔ isConnecting (mgr p) = true) ∧
  (isConnecting (mgr p) = true → getDb (mgr p) = inl notEstablished) ∧
  clientsMade p = connectAttempts p.
Proof.
  pose proof (sound_reachable cfg evs) as HS.
  destruct (run (boot (idle cfg)) evs) as [[cl d cf ic ig] ts ls cm ca cc sr ex].
  destruct HS as [_ Hh _ Hf Hc _ _ _ _ _ _]. simpl in *.
  rewrite Hf. unfold getDb. simpl.
  destruct ig; repeat apply conj; try done; try lia.
  intros _. destruct d as [d|]; [|done]. by destruct (Hh d eq_refl) as (_ & ? & _).
Qed.

(** X4: when an attempt in flight succeeds, the caller resolves to a new
    handle, which becomes the manager's handle, and which no earlier call
    of [connect()] has resolved to: a connection established again after
    a disconnect never brings back a handle handed out before. *)
Theorem established_handle_is_new
    (cfg : MongoConnectionConfig) (evs : list Event) (i : nat) :
  let p := run (boot (idle cfg)) evs in
  exited p = None →
  tasks p !! i = Some ConnectAwaiting →
  ∀ c, client (mgr p) = Some c →
  let d := mkDb c (dbName cfg) in
  let q := step p (ConnectSettles i None) in
  tasks q !! i = Some (ConnectResolved d) ∧
  getDb (mgr q) = inr d ∧
  ∀ j d', tasks p !! j = Some (ConnectResolved d') → d' ≠ d.
Proof.
  pose proof (sound_reachable cfg evs) as HS.
  destruct (run (boot (idle cfg)) evs) as [[cl d cf ic ig] ts ls cm ca cc sr ex].
  destruct HS as [Hcfg _ _ Hf _ _ _ Hfr _ _ _]. simpl in *. subst cf.
  intros -> Hi c ->. pose proof (in_flight_pos _ _ Hi) as Hpos.
  destruct ig; [|lia]. unfold step. simpl. rewrite Hi.
  unfold connect_settle. simpl. split; [|split; [done|]].
  - apply list_lookup_insert_eq. by eapply lookup_lt_Some.
  - intros j d' Hj ->. specialize (Hfr eq_refl c eq_refl j _ Hj). simpl in Hfr. lia.
Qed.

Lemma established_handle_is_new_witness :
  let p := run (boot (idle (resolveConfig (mkEnv None None) None)))
             [CallConnect; ConnectSettles 0 None; CallDisconnect;
              CloseSettles 1 None; CallConnect] in
  exited p = None ∧ tasks p !! 2 = Some ConnectAwaiting ∧
  client (mgr p) = Some 1 ∧
  tasks p !! 0 = Some (ConnectResolved (mkDb 0 "test")) ∧
  getDb (mgr (step p (ConnectSettles 2 None))) = inr (mkDb 1 "test").
Proof.
  split; [reflexivity|]. split; [reflexivity|]. split; [reflexivity|].
  split; [reflexivity|].
  exact (proj1 (proj2
    (established_handle_is_new (resolveConfig (mkEnv None None) None)
       [CallConnect; ConnectSettles 0 None; CallDisconnect;
        CloseSettles 1 None; CallConnect] 2 eq_refl eq_refl 1 eq_refl))).
Defined.

(** X5: the three termination signals always have the same number of
    handlers, one for each connection established so far and never more
    than the attempts issued; handlers are never removed, not even by
    [disconnect()]; so a signal ends the process by its default action
    only while no connection was ever established, and [process.exit] is
    only ever called with 0 or 1. *)
Theorem signal_handlers_accumulate
    (cfg : MongoConnectionConfig) (evs evs' : list Event) :
  let p := run (boot (idle cfg)) evs in
  let q := run p evs' in
  (∀ s s', registrations s (listeners p) = registrations s' (listeners p)) ∧
  (∀ s, registrations s (listeners p) + in_flight (tasks p)
        ≤ connectAttempts p)%nat ∧
  (∀ s, registrations s (listeners p) ≤ registrations s (listeners q))%nat ∧
  (∀ s, exited p = Some (Killed s) → listeners p = []) ∧
  (listeners p ≠ [] → ∀ s, exited q ≠ Some (Killed s)) ∧
  (∀ c, exited p = Some (Exited c) → c = 0%Z ∨ c = 1%Z).
Proof.
  intros p q.
  pose proof (sound_reachable cfg evs) as HS.
  pose proof (sound_reachable cfg (evs ++ evs')) as HS'.
  rewrite run_app in HS'. fold p in HS, HS'. fold q in HS'.
  destruct (listeners_run p evs') as [l Hl]. fold q in Hl.
  destruct HS as [_ _ _ _ _ _ _ _ (k & Hk & Hle) Hx Hkl].
  destruct HS' as [_ _ _ _ _ _ _ _ _ _ Hkl'].
  repeat apply conj.
  - intros s s'. by rewrite Hk, !registrations_rounds.
  - intros s. by rewrite Hk, registrations_rounds.
  - intros s. rewrite Hl. unfold registrations.
    rewrite filter_app, length_app. lia.
  - done.
  - intros Hne s Hs. apply Hkl' in Hs. rewrite Hl in Hs.
    by apply app_eq_nil in Hs as [? _].
  - done.
Qed.

Lemma signal_handlers_accumulate_witness :
  let cfg := resolveConfig (mkEnv None None) None in
  let p := run (boot (idle cfg)) [CallConnect; ConnectSettles 0 None] in
  let q := run p [CallDisconnect; CloseSettles 1 None; Deliver SIGINT] in
  listeners p ≠ [] ∧ exited q ≠ Some (Killed SIGINT) ∧
  exited (run (boot (idle cfg)) [Deliver SIGINT]) = Some (Killed SIGINT) ∧
  listeners (run (boot (idle cfg)) [Deliver SIGINT]) = [].
Proof.
  assert (listeners (run (boot (idle (resolveConfig (mkEnv None None) None)))
                       [CallConnect; ConnectSettles 0 None]) ≠ []) as Hne
    by discriminate.
  split; [exact Hne|]. split.
  - exact (proj1 (proj2 (proj2 (proj2 (proj2
      (signal_handlers_accumulate (resolveConfig (mkEnv None None) None)
         [CallConnect; ConnectSettles 0 None]
         [CallDisconnect; CloseSettles 1 None; Deliver SIGINT])))))
      Hne SIGINT).
  - split; [reflexivity|].
    exact (proj1 (proj2 (proj2 (proj2
      (signal_handlers_accumulate (resolveConfig (mkEnv None None) None)
         [Deliver SIGINT] []))))
      SIGINT eq_refl).
Defined.

(** X6: [disconnect()] on a manager that holds a client closes it once
    and, when the close resolves, leaves the manager without client or
    handle and not connected; a second [disconnect()] then resolves at
    once without closing anything.  When the close rejects, the call
    rejects with that error and the manager is left as it was. *)
Theorem disconnect_is_idempotent (p : Proc) (c : Client) :
  exited p = None →
  client (mgr p) = Some c →
  let i := length (tasks p) in
  let p1 := step p CallDisconnect in
  let p2 := step p1 (CloseSettles i None) in
  let p3 := step p2 CallDisconnect in
  (tasks p1 !! i = Some DisconnectClosing ∧ closeCalls p1 = S (closeCalls p) ∧
   mgr p1 = mgr p) ∧
  (tasks p2 !! i = Some DisconnectResolved ∧
   client (mgr p2) = None ∧ db (mgr p2) = None ∧ isConnected (mgr p2) = false ∧
   getDb (mgr p2) = inl notEstablished) ∧
  (tasks p3 !! S i = Some DisconnectResolved ∧ closeCalls p3 = closeCalls p2 ∧
   mgr p3 = mgr p2) ∧
  (∀ e, let p2' := step p1 (CloseSettles i (Some e)) in
        tasks p2' !! i = Some (DisconnectRejected e) ∧ mgr p2' = mgr p).
Proof.
  destruct p as [m ts ls cm ca cc sr ex]. simpl. intros -> Hc.
  assert (∀ t, (ts ++ [t])%list !! length ts = Some t) as Hlast.
  { intros t. by rewrite lookup_app_r, Nat.sub_diag by lia. }
  unfold step, close_settle, disconnect_call, spawn, bump_close; simpl.
  rewrite Hc. simpl. rewrite !Hlast. unfold set_task. simpl.
  rewrite !insert_at_end, !Hlast. simpl.
  repeat apply conj; try done.
  - by rewrite lookup_app_r, length_app, Nat.add_1_r, Nat.sub_diag
      by (rewrite length_app; simpl; lia).
  - intros e. by rewrite insert_at_end, Hlast.
Qed.

Lemma disconnect_is_idempotent_witness :
  let p := run (boot fresh) [CallConnect; ConnectSettles 0 None] in
  exited p = None ∧ client (mgr p) = Some 0 ∧
  closeCalls (run p [CallDisconnect; CloseSettles 1 None; CallDisconnect]) = 1 ∧
  isConnected (mgr (run p [CallDisconnect; CloseSettles 1 (Some "busy")]))
  = true.
Proof.
  split; [reflexivity|]. split; [reflexivity|].
  destruct (disconnect_is_idempotent
              (run (boot fresh) [CallConnect; ConnectSettles 0 None]) 0
              eq_refl eq_refl) as ((_ & H1 & _) & _ & (_ & H3 & _) & Hrej).
  split.
  - exact (eq_trans H3 H1).
  - exact (f_equal isConnected (proj2 (Hrej "busy"))).
Defined.

Lemma observers_agree_witness :
  let cfg := resolveConfig (mkEnv None None) None in
  let up := mgr (run (boot (idle cfg)) [CallConnect; ConnectSettles 0 None]) in
  let down := mgr (run (boot (idle cfg))
                     [CallConnect; ConnectSettles 0 None;
                      CallDisconnect; CloseSettles 1 None]) in
  getDb up = inr (mkDb 0 "test") ∧ getClient up = inr 0 ∧
  isConnected down = false ∧ getClient down = inl notEstablished ∧
  ∀ r, ping down r = false.
Proof.
  destruct (observers_agree (resolveConfig (mkEnv None None) None)
              [CallConnect; ConnectSettles 0 None])
    as (_ & _ & _ & _ & Hup & _).
  destruct (observers_agree (resolveConfig (mkEnv None None) None)
              [CallConnect; ConnectSettles 0 None;
               CallDisconnect; CloseSettles 1 None])
    as (_ & _ & _ & _ & _ & Hdown & _).
  split; [reflexivity|].
  split; [exact (proj1 (proj2 (Hup (mkDb 0 "test") eq_refl)))|].
  split; [reflexivity|].
  exact (proj2 (Hdown eq_refl)).
Defined.

Lemma single_flight_witness :
  let p := run (boot (idle (resolveConfig (mkEnv None None) None)))
             [CallConnect; CallConnect; CallDisconnect; CallConnect] in
  isConnecting (mgr p) = true ∧ in_flight (tasks p) = 1%nat ∧
  getDb (mgr p) = inl notEstablished.
Proof.
  destruct (single_flight (resolveConfig (mkEnv None None) None)
              [CallConnect; CallConnect; CallDisconnect; CallConnect])
    as (_ & Hiff & Hnone & _).
  split; [reflexivity|].
  split; [exact (proj2 Hiff eq_refl)|exact (Hnone eq_refl)].
Defined.

(** X19: a failed connection attempt rejects its caller with the cause
    wrapped in "Failed to connect to MongoDB: ", lowers the connecting
    flag and registers no signal handler, but leaves the client it built
    in the manager: [getClient()] still refuses it, a later
    [disconnect()] closes it, and a later [connect()] starts a new attempt
    with a new client. *)
Theorem failed_attempt_leaves_its_client
    (p : Proc) (i : nat) (c : Client) (cause : string) :
  exited p = None →
  tasks p !! i = Some ConnectAwaiting →
  client (mgr p) = Some c → db (mgr p) = None → isConnected (mgr p) = false →
  let q := step p (ConnectSettles i (Some cause)) in
  tasks q !! i = Some (ConnectRejected ("Failed to connect to MongoDB: " ++ cause)) ∧
  client (mgr q) = Some c ∧ isConnecting (mgr q) = false ∧
  isConnected (mgr q) = false ∧ listeners q = listeners p ∧
  getClient (mgr q) = inl notEstablished ∧
  closeCalls (step q CallDisconnect) = S (closeCalls p) ∧
  (let q' := step q CallConnect in
   connectAttempts q' = S (connectAttempts p) ∧
   client (mgr q') = Some (clientsMade p) ∧
   tasks q' !! length (tasks p) = Some ConnectAwaiting).
Proof.
  destruct p as [[cl d cf ic ig] ts ls cm ca cc sr ex]. simpl.
  intros -> Hi -> -> ->.
  unfold step; simpl. rewrite Hi.
  unfold connect_settle, connect_call, disconnect_call, set_task, set_mgr,
    lower_flag, spawn, bump_close, getClient; simpl.
  repeat apply conj; try done.
  - apply list_lookup_insert_eq. by eapply lookup_lt_Some.
  - rewrite <- (length_insert ts i (ConnectRejected (connectFailed cause))) at 1.
    rewrite insert_at_end, lookup_app_r by (rewrite length_insert; lia).
    by rewrite length_insert, Nat.sub_diag.
Qed.

Lemma failed_attempt_leaves_its_client_witness :
  let p := run (boot fresh) [CallConnect] in
  exited p = None ∧ tasks p !! 0 = Some ConnectAwaiting ∧
  client (mgr p) = Some 0 ∧ db (mgr p) = None ∧ isConnected (mgr p) = false ∧
  client (mgr (step p (ConnectSettles 0 (Some "ECONNREFUSED")))) = Some 0 ∧
  closeCalls (run p [ConnectSettles 0 (Some "ECONNREFUSED"); CallDisconnect])
  = 1.
Proof.
  destruct (failed_attempt_leaves_its_client (run (boot fresh) [CallConnect])
              0 0 "ECONNREFUSED" eq_refl eq_refl eq_refl eq_refl eq_refl)
    as (_ & Hclient & _ & _ & _ & _ & Hclose & _).
  do 5 (split; [reflexivity|]).
  split; [exact Hclient|exact Hclose].
Defined.

(** X20: a [disconnect()] that completes while a connection attempt is
    in flight makes that attempt fail even when the driver connects: the
    caller of [connect()] is rejected, the manager ends up without handle
    and not connected, and no signal handler is registered. *)
Theorem disconnect_defeats_attempt_in_flight (p : Proc) (i : nat) (c : Client) :
  exited p = None →
  tasks p !! i = Some ConnectAwaiting →
  client (mgr p) = Some c →
  let j := length (tasks p) in
  let q := run p [CallDisconnect; CloseSettles j None; ConnectSettles i None] in
  (∃ cause, tasks q !! i
            = Some (ConnectRejected ("Failed to connect to MongoDB: " ++ cause))) ∧
  tasks q !! j = Some DisconnectResolved ∧
  getDb (mgr q) = inl notEstablished ∧
  isConnected (mgr q) = false ∧ isConnecting (mgr q) = false ∧
  listeners q = listeners p.
Proof.
  destruct p as [[cl d cf ic ig] ts ls cm ca cc sr ex]. simpl.
  intros -> Hi ->.
  assert (i < length ts)%nat as Hlt by (by eapply lookup_lt_Some).
  unfold step; simpl. unfold disconnect_call, close_settle; simpl.
  rewrite lookup_app_r, Nat.sub_diag by lia. simpl.
  rewrite insert_at_end, lookup_app_l, Hi by lia.
  unfold connect_settle; simpl.
  repeat apply conj; try done.
  - eexists. apply list_lookup_insert_eq.
    rewrite length_insert, length_app. simpl. lia.
  - rewrite list_lookup_insert_ne by lia.
    by rewrite insert_at_end, lookup_app_r, Nat.sub_diag by lia.
Qed.

Lemma disconnect_defeats_attempt_in_flight_witness :
  let p := run (boot fresh) [CallConnect] in
  exited p = None ∧ tasks p !! 0 = Some ConnectAwaiting ∧
  client (mgr p) = Some 0 ∧
  isConnected (mgr (run p [CallDisconnect; CloseSettles 1 None;
                           ConnectSettles 0 None])) = false.
Proof.
  do 3 (split; [reflexivity|]).
  destruct (disconnect_defeats_attempt_in_flight
              (run (boot fresh) [CallConnect]) 0 0 eq_refl eq_refl eq_refl)
    as (_ & _ & _ & Hdown & _).
  exact Hdown.
Defined.

End ReachFacts.

(** * Bursts of connect() calls on a disconnected manager *)

Module BurstFacts.
Import Connection Reach ConnectionFacts ReachFacts.
















End BurstFacts.

(** * Properties of the identifier helpers *)

Module TypesFacts.
Import Mongo Crud Types.

Lemma test_length re l : test re l = true → length l = length re.
Proof.
  revert l. induction re as [|c re IH]; intros [|a l]; simpl; try done.
  intros [_ Hl]%andb_true_iff. by rewrite (IH l Hl).
Qed.

Lemma test_lookup re l i c a :
  test re l = true → re !! i = Some c → l !! i = Some a → in_class c a = true.
Proof.
  revert l i. induction re as [|c' re IH]; intros [|a' l] [|i]; simpl; try done.
  - intros [Hc _]%andb_true_iff [= <-] [= <-]. done.
  - intros [_ Hl]%andb_true_iff. by apply IH.
Qed.

Lemma in_class_upper c a : in_class c (upper a) = in_class c a.
Proof.
  destruct a as [[] [] [] [] [] [] [] []]; destruct c; reflexivity.
Qed.

Lemma test_upper re l : test re (upper <$> l) = test re l.
Proof.
  revert l. induction re as [|c re IH]; intros [|a l]; simpl; try done.
  by rewrite in_class_upper, IH.
Qed.

Lemma dash_only a : in_class Dash a = true → a = hyphen.
Proof.
  destruct a as [[] [] [] [] [] [] [] []]; simpl; intros H;
    solve [reflexivity | vm_compute in H; discriminate].
Qed.

Lemma length_list_ascii s :
  length (String.list_ascii_of_string s) = String.length s.
Proof. induction s as [|a s IH]; simpl; [done|by rewrite IH]. Qed.

Section Guards.
Context `{IdAuthority}.

(** X7: [toObjectId] succeeds on exactly the identifiers [isObjectId]
    accepts; what it returns is an [ObjectId], which it returns unchanged
    when given again; on the others it throws "Invalid ObjectId: "
    followed by the input.  An engine in native-id mode validates an
    identifier exactly as [toObjectId] converts it, with the same result
    and the same message. *)
Theorem toObjectId_agrees_with_the_guard
    (E : MongoCRUD) (id : IdType) (w : World) :
  (isObjectId id = true ↔ ∃ o, toObjectId id = inr o) ∧
  (∀ o, toObjectId id = inr o →
     isString o = false ∧ isObjectId o = true ∧ toObjectId o = inr o) ∧
  (isObjectId id = false →
     toObjectId id = inl (ErrorObj ("Invalid ObjectId: " ++ toStringId id))) ∧
  (truthy (useObjectId (options E)) = true →
     validateId E id w
     = (match toObjectId id with inr o => inr o | inl e => inl e end, w)).
Proof.
  unfold validateId. destruct id as [h|s]; simpl.
  - repeat split; eauto; intros; simplify_eq; try done.
    by destruct (truthy _).
  - destruct (ObjectId_isValid s) eqn:Hs.
    + repeat split; eauto; intros; simplify_eq; try done.
      by destruct (truthy _).
    + repeat split; intros; simplify_eq; try done.
      * by destruct H0.
      * by destruct (truthy _).
Qed.

(** X8: [validateId] never touches the world and an identifier it has
    accepted is accepted again unchanged; in external-id mode it accepts
    every identifier as it is, an [ObjectId] included; in native-id mode
    it accepts every [ObjectId] as it is and turns a valid string into the
    [ObjectId] it denotes. *)
Theorem validateId_is_idempotent (E : MongoCRUD) (id : IdType) (w : World) :
  (validateId E id w).2 = w ∧
  (∀ vid, (validateId E id w).1 = inr vid →
     validateId E vid w = (inr vid, w)) ∧
  (truthy (useObjectId (options E)) = false →
     validateId E id w = (inr id, w)) ∧
  (∀ h, validateId E (IdObject h) w = (inr (IdObject h), w)) ∧
  (∀ s, truthy (useObjectId (options E)) = true →
     ObjectId_isValid s = true →
     validateId E (IdString s) w
     = (inr (IdObject (ObjectId_ofString s)), w)).
Proof.
  unfold validateId. repeat split.
  - by repeat case_match.
  - intros vid. repeat case_match; simpl; intros; simplify_eq; done.
  - by intros ->.
  - intros h. by case_match.
  - by intros s -> ->.
Qed.

(** X9: [isUUID] accepts only strings of 36 characters with hyphens at
    positions 8, 13, 18 and 23, and it does not distinguish upper from
    lower case; [isValidId] accepts every identifier, whether or not
    [isObjectId] or [isUUID] accepts it. *)
Theorem isUUID_shape (id : IdType) :
  (isUUID id = true →
     ∃ s, id = IdString s ∧ String.length s = 36%nat ∧
          ∀ i, i ∈ [8; 13; 18; 23]%nat →
               String.list_ascii_of_string s !! i = Some hyphen) ∧
  (∀ s, isUUID (IdString (upper_string s)) = isUUID (IdString s)) ∧
  isValidId id = true.
Proof.
  split; [|split].
  - destruct id as [h|s]; [done|]. intros Ht.
    change (test uuidRegex (String.list_ascii_of_string s) = true) in Ht.
    exists s. split; [done|].
    pose proof (test_length _ _ Ht) as Hlen.
    split; [by rewrite <- length_list_ascii, Hlen|].
    intros i Hi.
    assert (uuidRegex !! i = Some Dash) as Hre.
    { repeat (apply elem_of_cons in Hi as [->|Hi]; [reflexivity|]).
      by apply elem_of_nil in Hi. }
    assert (i < length (String.list_ascii_of_string s))%nat as Hlt.
    { rewrite Hlen. by eapply lookup_lt_Some. }
    apply lookup_lt_is_Some in Hlt as [a Ha]. rewrite Ha. f_equal.
    apply dash_only. by eapply test_lookup.
  - intros s. unfold isUUID, upper_string.
    by rewrite String.list_ascii_of_string_of_list_ascii, test_upper.
  - destruct id as [h|s]; unfold isValidId; simpl; [done|].
    by rewrite orb_true_r.
Qed.

End Guards.

Import Sample.

Lemma toObjectId_agrees_with_the_guard_witness :
  isObjectId (IdString "not-an-id") = false ∧
  toObjectId (IdString "not-an-id")
  = inl (ErrorObj "Invalid ObjectId: not-an-id") ∧
  truthy (useObjectId (options nativeEngine)) = true ∧
  validateId nativeEngine (IdString "507F1F77BCF86CD799439011") emptyWorld
  = (inr (IdObject "507f1f77bcf86cd799439011"), emptyWorld).
Proof.
  split; [reflexivity|].
  destruct (toObjectId_agrees_with_the_guard nativeEngine
              (IdString "not-an-id") emptyWorld) as (_ & _ & Hbad & _).
  split; [exact (Hbad eq_refl)|]. split; [reflexivity|].
  destruct (toObjectId_agrees_with_the_guard nativeEngine
              (IdString "507F1F77BCF86CD799439011") emptyWorld)
    as (_ & _ & _ & Hsame).
  exact (Hsame eq_refl).
Defined.

Lemma validateId_is_idempotent_witness :
  truthy (useObjectId (options externalEngine)) = false ∧
  validateId externalEngine (IdObject "507f1f77bcf86cd799439011") emptyWorld
  = (inr (IdObject "507f1f77bcf86cd799439011"), emptyWorld) ∧
  ObjectId_isValid "507F1F77BCF86CD799439011" = true ∧
  validateId nativeEngine (IdObject "507f1f77bcf86cd799439011") emptyWorld
  = (inr (IdObject "507f1f77bcf86cd799439011"), emptyWorld).
Proof.
  split; [reflexivity|].
  destruct (validateId_is_idempotent externalEngine
              (IdObject "507f1f77bcf86cd799439011") emptyWorld)
    as (_ & _ & Hext & _).
  split; [exact (Hext eq_refl)|]. split; [reflexivity|].
  destruct (validateId_is_idempotent nativeEngine
              (IdString "507F1F77BCF86CD799439011") emptyWorld)
    as (_ & Hagain & _ & _ & Hvalid).
  exact (Hagain (IdObject "507f1f77bcf86cd799439011")
           (f_equal fst (Hvalid "507F1F77BCF86CD799439011" eq_refl eq_refl))).
Defined.

Lemma isUUID_shape_witness :
  isUUID (IdString "123e4567-e89b-42d3-A456-426614174000") = true ∧
  String.list_ascii_of_string "123e4567-e89b-42d3-A456-426614174000" !! 13%nat
  = Some hyphen.
Proof.
  split; [reflexivity|].
  destruct (proj1 (isUUID_shape
                     (IdString "123e4567-e89b-42d3-A456-426614174000"))
              eq_refl) as (s & Hs & _ & Hdash).
  injection Hs as <-. apply Hdash. by repeat constructor.
Defined.

End TypesFacts.

(** * Further properties of the CRUD engine *)

Module LifecycleFacts.
Import Connection Mongo Crud Lifecycle CrudFacts.

Lemma no_fault_take n w :
  no_fault (S n) w → take_fault w = (NoFault, tail (faults w)).
Proof.
  unfold no_fault, take_fault. destruct (faults w) as [|f fs]; [done|].
  simpl. by intros [-> _]%Forall_cons.
Qed.

Lemma no_fault_tail n w w' :
  no_fault (S n) w → faults w' = tail (faults w) → no_fault n w'.
Proof.
  unfold no_fault. intros Hw ->. destruct (faults w) as [|f fs]; simpl in *.
  - by rewrite take_nil.
  - by apply Forall_cons in Hw as [_ ?].
Qed.

Lemma delete_first_last (sel : Doc → bool) docs d :
  filter (λ x, sel x = true) docs = [] → sel d = true →
  delete_first sel (docs ++ [d]) = (docs, 1).
Proof.
  intros Hnone Hd. induction docs as [|x docs IH]; simpl.
  - by rewrite Hd.
  - rewrite filter_cons in Hnone. destruct (sel x) eqn:Hx.
    + by rewrite decide_True in Hnone.
    + rewrite decide_False in Hnone by done. by rewrite (IH Hnone).
Qed.

Section Lifecycle.
Context `{Driver} `{IdAuthority}.

Lemma create_runs (E : MongoCRUD) (data d : Doc) (w : World) :
  parse (schema E) data = ParseOk d → no_fault 1 w →
  let doc := <["_id" := id_value (next_id E w)]> d in
  create E data w
  = (inr (mkCreate true (Some doc) (Some (id_value (next_id E w))) None),
     called E (InsertOne doc) (documents w ++ [doc]) (drawn w)).
Proof.
  intros Hp Hq. simpl.
  unfold create, try_catch, bind, validateData. rewrite Hp. simpl.
  unfold insertOne, next_id, called, drawn, after_call.
  change (take_fault _) with (take_fault w) at 1.
  rewrite (no_fault_take _ _ Hq). simpl. by rewrite lookup_insert_eq.
Qed.

Lemma selected_after_create (E : MongoCRUD) (d : Doc) (w : World) k :
  selects_by_id →
  selected (by_id (next_id E w)) w = [] →
  let doc := <["_id" := id_value (next_id E w)]> d in
  selected (by_id (next_id E w))
    (called E k (documents w ++ [doc]) (drawn w)) = [doc].
Proof.
  intros Hlaw Hnone. unfold selected in *. simpl.
  rewrite filter_app, Hnone, filter_cons, decide_True; [done|].
  apply Hlaw. by rewrite lookup_insert_eq.
Qed.

(** X10: when the schema accepts the input and the store acknowledges
    the insert, [create] draws one identifier (an [ObjectId] in native-id
    mode, a UUID string otherwise), makes one store call, the insert of
    the parsed document with that identifier as its [_id] (replacing any
    [_id] the parsed document had), and returns that document together
    with the same identifier; the collection gains that document and
    nothing else changes. *)
Theorem create_inserts_the_parsed_document
    (E : MongoCRUD) (data d : Doc) (w : World) :
  parse (schema E) data = ParseOk d → no_fault 1 w →
  let gid := next_id E w in
  let doc := <["_id" := id_value gid]> d in
  create E data w
  = (inr (mkCreate true (Some doc) (Some (id_value gid)) None),
     mkWorld (documents w ++ [doc]) (manager w) (tail (faults w))
       (calls w ++ [(collection E, InsertOne doc)]) (S (idsMade w))) ∧
  doc !! "_id" = Some (id_value gid) ∧
  (∀ k, k ≠ "_id" → doc !! k = d !! k) ∧
  (truthy (useObjectId (options E)) = true →
     gid = IdObject (ObjectId_fresh (idsMade w))) ∧
  (truthy (useObjectId (options E)) = false →
     gid = IdString (uuidv4 (idsMade w))).
Proof.
  intros Hp Hq gid doc. split; [exact (create_runs E data d w Hp Hq)|].
  split; [by apply lookup_insert_eq|].
  split; [by intros k Hk; apply lookup_insert_ne|].
  subst gid. unfold next_id. split; by intros ->.
Qed.

(** X11: on a store that selects by [_id], a document just created is
    found again: [findById] with the returned identifier succeeds with
    exactly the document [create] returned, and [exists] is true of it,
    provided the identifier was not in use before. *)
Theorem created_document_is_found
    (E : MongoCRUD) (data d : Doc) (w : World) :
  selects_by_id →
  parse (schema E) data = ParseOk d → no_fault 2 w →
  selected (by_id (next_id E w)) w = [] →
  let gid := next_id E w in
  let doc := <["_id" := id_value gid]> d in
  let w1 := (create E data w).2 in
  (findById E gid w1).1 = inr (mkFind true (Some doc) None) ∧
  (exists_ E gid w1).1 = inr true.
Proof.
  intros Hlaw Hp Hq Hnone gid doc w1.
  assert (no_fault 1 w) as Hq1.
  { unfold no_fault in *. destruct (faults w) as [|f [|g fs]]; simpl in *;
      try done. apply Forall_cons in Hq as [? _]. by repeat constructor. }
  pose proof (selected_after_create E d w (InsertOne doc) Hlaw Hnone) as Hsel.
  subst w1 doc gid. rewrite (create_runs E data d w Hp Hq1). simpl in *.
  set (gid := next_id E w) in *.
  set (doc := <["_id" := id_value gid]> d) in *.
  set (w1 := called E (InsertOne doc) (documents w ++ [doc]) (drawn w)) in *.
  assert (take_fault w1 = (NoFault, tail (faults w1))) as Htf.
  { apply (no_fault_take 0). by apply (no_fault_tail 1 w). }
  assert (validateId E gid w1 = (inr gid, w1)) as Hid.
  { unfold validateId, gid, next_id. by destruct (truthy _). }
  unfold selected in Hsel. split.
  - unfold findById, try_catch, bind. rewrite Hid.
    unfold findOne. rewrite Htf. by rewrite Hsel.
  - unfold exists_, try_catch, bind. rewrite Hid.
    unfold countDocuments. rewrite Htf. by rewrite Hsel.
Qed.

(** X12: on a store that selects by [_id], deleting a document just
    created removes exactly that document: [deleteById] reports one
    deletion and the collection is what it was before the [create];
    afterwards [exists] is false and [findById] reports not found. *)
Theorem create_then_delete_restores
    (E : MongoCRUD) (data d : Doc) (w : World) :
  selects_by_id →
  parse (schema E) data = ParseOk d → no_fault 3 w →
  selected (by_id (next_id E w)) w = [] →
  let gid := next_id E w in
  let w1 := (create E data w).2 in
  let w2 := (deleteById E gid w1).2 in
  (deleteById E gid w1).1 = inr (mkDelete true 1 None) ∧
  documents w2 = documents w ∧
  (exists_ E gid w2).1 = inr false ∧
  (findById E gid w2).1
  = inr (mkFind false None
           (Some ("Document with id " ++ show_id gid ++ " not found"))).
Proof.
  intros Hlaw Hp Hq Hnone gid w1 w2.
  assert (no_fault 1 w) as Hq1.
  { unfold no_fault in *. destruct (faults w) as [|f [|g fs]]; simpl in *;
      try done. apply Forall_cons in Hq as [? _]. by repeat constructor. }
  subst w2 w1 gid. rewrite (create_runs E data d w Hp Hq1). simpl.
  set (gid := next_id E w) in *.
  set (doc := <["_id" := id_value gid]> d).
  set (w1 := called E (InsertOne doc) (documents w ++ [doc]) (drawn w)).
  assert (no_fault 2 w1) as Hq2 by (by apply (no_fault_tail 2 w)).
  assert (∀ v, validateId E gid v = (inr gid, v)) as Hid.
  { intros v. unfold validateId, gid, next_id. by destruct (truthy _). }
  assert (matches (by_id gid) doc = true) as Hdoc.
  { apply Hlaw. by apply lookup_insert_eq. }
  assert (deleteById E gid w1
          = (inr (mkDelete true 1 None),
             called E (DeleteOne (by_id gid)) (documents w) w1)) as Hdel.
  { unfold deleteById, try_catch, bind. rewrite Hid.
    unfold deleteOne. rewrite (no_fault_take 1 _ Hq2). simpl.
    by rewrite (delete_first_last _ _ _ Hnone Hdoc). }
  rewrite Hdel. simpl.
  set (w2 := called E (DeleteOne (by_id gid)) (documents w) w1).
  assert (take_fault w2 = (NoFault, tail (faults w2))) as Htf.
  { apply (no_fault_take 0). by apply (no_fault_tail 1 w1). }
  unfold selected in Hnone.
  repeat split.
  - unfold exists_, try_catch, bind. rewrite Hid.
    unfold countDocuments. rewrite Htf. simpl. by rewrite Hnone.
  - unfold findById, try_catch, bind. rewrite Hid.
    unfold findOne. rewrite Htf. simpl. by rewrite Hnone.
Qed.

(** The payload of an update passes, in the sense of [updateById]: it
    has no [$set] section, or the partial schema accepts the section. *)
Lemma payload_passes (E : MongoCRUD) (u : UpdateFilter) (w : World) :
  (u !! "$set" = None ∨
   ∃ fields d, u !! "$set" = Some fields ∧
               partial_parse (schema E) fields = ParseOk d) →
  match u !! "$set" with
  | Some fields =>
      match partial_parse (schema E) fields with
      | ParseOk _ => ret ()
      | ZodError errors =>
          throw (ErrorObj ("Update validation failed: "
                           ++ errorMessages errors))
      | ParseThrows e => throw e
      end
  | None => ret ()
  end w = (inr (), w).
Proof. by intros [->|(fields & d & -> & ->)]. Qed.

(** X13: a write the store does not acknowledge is reported as a failure
    with a message naming the operation, no data and a count of zero,
    whatever the store did with it; [updateById] then makes no second
    store call to read the document back. *)
Theorem unacknowledged_write_is_a_failure
    (E : MongoCRUD) (w : World) (fs : list Fault) :
  faults w = Unacknowledged :: fs →
  (∀ data d, parse (schema E) data = ParseOk d →
     (create E data w).1
     = inr (mkCreate false None None
              (Some "Insert operation was not acknowledged"))) ∧
  (∀ id vid u, validateId E id w = (inr vid, w) →
     (u !! "$set" = None ∨
      ∃ fields d, u !! "$set" = Some fields ∧
                  partial_parse (schema E) fields = ParseOk d) →
     (updateById E id u w).1
     = inr (mkUpdate false None 0
              (Some "Update operation was not acknowledged")) ∧
     calls (updateById E id u w).2
     = (calls w ++ [(collection E, UpdateOne (by_id vid) u)])%list) ∧
  (∀ id vid, validateId E id w = (inr vid, w) →
     (deleteById E id w).1
     = inr (mkDelete false 0 (Some "Delete operation was not acknowledged"))) ∧
  (∀ flt,
     (deleteMany E flt w).1
     = inr (mkDelete false 0 (Some "Delete operation was not acknowledged"))).
Proof.
  intros Hf. repeat apply conj.
  - intros data d Hp. unfold create, try_catch, bind, validateData.
    rewrite Hp. simpl. unfold insertOne, take_fault. simpl. by rewrite Hf.
  - intros id vid u Hid Hu. unfold updateById, try_catch, bind.
    rewrite Hid, (payload_passes E u w Hu).
    unfold updateOne, take_fault. rewrite Hf.
    by destruct (update_first _ _ _) as [docs [m n]].
  - intros id vid Hid. unfold deleteById, try_catch, bind. rewrite Hid.
    unfold deleteOne, take_fault. rewrite Hf.
    by destruct (delete_first _ _) as [docs n].
  - intros flt. unfold deleteMany, try_catch, bind, Mongo.deleteMany, take_fault.
    by rewrite Hf.
Qed.

(** X14: a [$set] section the partial schema accepts reaches the store
    as the caller gave it: what the schema's parse returned is thrown
    away, so two schemas that both accept the section give the same
    outcome, and the store receives the caller's payload.  [create], by
    contrast, inserts what the schema's parse returned: with a schema that
    adds fields, the inserted document has them, the update payload does
    not. *)
Theorem updateById_sends_the_payload_as_given
    (E : MongoCRUD) (id vid : IdType) (update : UpdateFilter)
    (fields : gmap string Value) (w : World) :
  validateId E id w = (inr vid, w) →
  update !! "$set" = Some fields →
  (∀ sch d d',
     partial_parse (schema E) fields = ParseOk d →
     partial_parse sch fields = ParseOk d' →
     updateById (mkEngine (collection E) sch (options E)) id update w
     = updateById E id update w) ∧
  (∀ stamp data,
     let S := mkEngine (collection E) (stamping stamp) (options E) in
     (∃ rest, calls (updateById S id update w).2
              = (calls w
                 ++ (collection E, UpdateOne (by_id vid) update) :: rest)%list) ∧
     calls (create S data w).2
     = (calls w
        ++ [(collection E,
             InsertOne (<["_id" := id_value (next_id S w)]> (stamp ∪ data)))])%list).
Proof.
  intros Hid Hset. split.
  - intros sch d d' Hd Hd'. unfold updateById, validateId in *. simpl.
    by rewrite Hset, Hd, Hd'.
  - intros stamp data S. split.
    + assert (validateId S id w = (inr vid, w)) as HidS by exact Hid.
      unfold updateById, try_catch, bind. rewrite HidS, Hset. simpl.
      unfold updateOne, take_fault, after_call.
      destruct (update_first _ _ _) as [docs [m n]].
      destruct (faults w) as [|[|e|] fs']; simpl.
      * unfold findOne, take_fault, after_call, ret; simpl.
        eexists. by rewrite <- app_assoc.
      * unfold findOne, take_fault, after_call, ret; simpl.
        destruct fs' as [|[|e|] fs']; simpl; eexists; by rewrite <- app_assoc.
      * by exists [].
      * by exists [].
    + unfold create, try_catch, bind, validateData. simpl.
      unfold insertOne, take_fault, after_call, next_id. simpl.
      by destruct (faults w) as [|[|e|] fs'].
Qed.

(** X15: an exception thrown by the first store call of an operation
    never leaves the engine: the operation returns a failure whose message
    is the message of the exception, with no data, an empty page and
    counts of zero. *)
Theorem store_exception_becomes_a_failure
    (E : MongoCRUD) (w : World) (e : Thrown) (fs : list Fault) :
  faults w = Throw e :: fs →
  let msg := handleError e "" in
  (∀ data d, parse (schema E) data = ParseOk d →
     (create E data w).1 = inr (mkCreate false None None (Some msg))) ∧
  (∀ id vid, validateId E id w = (inr vid, w) →
     (findById E id w).1 = inr (mkFind false None (Some msg)) ∧
     (deleteById E id w).1 = inr (mkDelete false 0 (Some msg)) ∧
     ∀ u, (u !! "$set" = None ∨
           ∃ fields d, u !! "$set" = Some fields ∧
                       partial_parse (schema E) fields = ParseOk d) →
          (updateById E id u w).1 = inr (mkUpdate false None 0 (Some msg))) ∧
  (∀ flt opts,
     (findMany E flt opts w).1 = inr (mkFindManyResult false [] 0 (Some msg))) ∧
  (∀ flt, (deleteMany E flt w).1 = inr (mkDelete false 0 (Some msg))).
Proof.
  intros Hf msg. repeat apply conj.
  - intros data d Hp. unfold create, try_catch, bind, validateData.
    rewrite Hp. simpl. unfold insertOne, take_fault. simpl. by rewrite Hf.
  - intros id vid Hid. repeat apply conj.
    + unfold findById, try_catch, bind. rewrite Hid.
      unfold findOne, take_fault. by rewrite Hf.
    + unfold deleteById, try_catch, bind. rewrite Hid.
      unfold deleteOne, take_fault. rewrite Hf.
      by destruct (delete_first _ _) as [docs n].
    + intros u Hu. unfold updateById, try_catch, bind.
      rewrite Hid, (payload_passes E u w Hu).
      unfold updateOne, take_fault. rewrite Hf.
      by destruct (update_first _ _ _) as [docs [m n]].
  - intros flt opts. unfold findMany, try_catch, bind, toArray, take_fault.
    by rewrite Hf.
  - intros flt. unfold deleteMany, try_catch, bind, Mongo.deleteMany, take_fault.
    by rewrite Hf.
Qed.

(** X16: a failure of the second store call hides what the first one
    did.  When the count throws after the page was read, [findMany]
    returns a failure with an empty page; when the read-back throws after
    an acknowledged update, [updateById] returns a failure with a modified
    count of zero although [updateOne] was called and acknowledged. *)
Theorem later_exception_hides_the_first_call
    (E : MongoCRUD) (w : World) (e : Thrown) (fs : list Fault) :
  (∀ f flt opts, lets_through f → faults w = f :: Throw e :: fs →
     (findMany E flt opts w).1
     = inr (mkFindManyResult false [] 0 (Some (handleError e "")))) ∧
  (∀ id vid u, faults w = NoFault :: Throw e :: fs →
     validateId E id w = (inr vid, w) →
     (u !! "$set" = None ∨
      ∃ fields d, u !! "$set" = Some fields ∧
                  partial_parse (schema E) fields = ParseOk d) →
     (updateById E id u w).1
     = inr (mkUpdate false None 0 (Some (handleError e ""))) ∧
     calls (updateById E id u w).2
     = (calls w ++ [(collection E, UpdateOne (by_id vid) u);
                    (collection E, FindOne (by_id vid))])%list ∧
     documents (updateById E id u w).2
     = (update_first (matches (by_id vid)) (applyUpdate u) (documents w)).1).
Proof.
  split.
  - intros f flt opts Hlet Hf.
    unfold findMany, try_catch, bind, toArray, countDocuments, take_fault.
    rewrite Hf. by destruct f.
  - intros id vid u Hf Hid Hu. unfold updateById, try_catch, bind.
    rewrite Hid, (payload_passes E u w Hu).
    unfold updateOne, findOne, take_fault, after_call. rewrite Hf.
    destruct (update_first _ _ _) as [docs [m n]]. simpl.
    by rewrite <- app_assoc.
Qed.

(** X17: [exists] and [count] never throw.  With no transport error,
    [exists] says whether the validated identifier selects a document and
    [count] is the number of documents the filter selects; when the store
    throws they answer false and zero; an identifier that native-id mode
    rejects makes [exists] answer false without any store call. *)
Theorem exists_and_count_never_throw (E : MongoCRUD) (w : World) :
  (∀ id, ∃ b, (exists_ E id w).1 = inr b) ∧
  (∀ flt, ∃ n, (count E flt w).1 = inr n) ∧
  (no_throw 1 w →
     (∀ id vid, validateId E id w = (inr vid, w) →
        (exists_ E id w).1
        = inr (bool_decide (0 < length (selected (by_id vid) w))%nat)) ∧
     (∀ flt, (count E flt w).1 = inr (length (selected flt w)))) ∧
  (∀ e fs, faults w = Throw e :: fs →
     (∀ id, (exists_ E id w).1 = inr false) ∧
     (∀ flt, (count E flt w).1 = inr 0%nat)) ∧
  (∀ s, truthy (useObjectId (options E)) = true →
     ObjectId_isValid s = false →
     exists_ E (IdString s) w = (inr false, w)).
Proof.
  repeat apply conj.
  - intros id. unfold exists_, try_catch, bind, ret.
    repeat case_match; simplify_eq; eauto.
  - intros flt. unfold count, try_catch, ret.
    repeat case_match; simplify_eq; eauto.
  - intros Hq. unfold no_throw in Hq. split.
    + intros id vid Hid. unfold exists_, try_catch, bind. rewrite Hid.
      unfold countDocuments, take_fault, selected.
      destruct (faults w) as [|f fs]; [done|].
      apply Forall_cons in Hq as [Hlet _]. by destruct f.
    + intros flt. unfold count, try_catch, countDocuments, take_fault, selected.
      destruct (faults w) as [|f fs]; [done|].
      apply Forall_cons in Hq as [Hlet _]. by destruct f.
  - intros e fs Hf. split.
    + intros id. unfold exists_, try_catch, bind.
      pose proof (validateId_pure E id w) as Hw.
      destruct (validateId E id w) as [[e'|vid] w1]; simpl in Hw; subst w1;
        [done|].
      unfold countDocuments, take_fault. by rewrite Hf.
    + intros flt. unfold count, try_catch, countDocuments, take_fault.
      by rewrite Hf.
  - intros s Hmode Hbad. unfold exists_, try_catch, bind, validateId.
    by rewrite Hmode, Hbad.
Qed.

(** X18: a page [findMany] returns with success is never longer than a
    positive [limit], and never longer than 100 when no [limit] is given.
    (The page and the total come from two separate awaits, lines 179 and
    180, so nothing is stated here that relates the one to the other.) *)
Theorem findMany_page_is_bounded
    (E : MongoCRUD) (flt : Filter) (opts : FindManyOptions) (w : World)
    (r : FindManyResult) :
  (findMany E flt opts w).1 = inr r →
  fm_success r = true →
  (∀ l, limit opts = Some l → (0 < l)%Z →
     (length (fm_data r) ≤ Z.to_nat l)%nat) ∧
  (limit opts = None → (length (fm_data r) ≤ 100)%nat).
Proof.
  intros Hr Hok.
  assert (∀ cur, cur_limit cur
                 = (if (0 <? default 100 (limit opts))%Z
                    then default 100%Z (limit opts) else 0%Z) →
            let data := page cur (documents w) in
            (∀ l, limit opts = Some l → (0 < l)%Z →
               (length data ≤ Z.to_nat l)%nat) ∧
            (limit opts = None → (length data ≤ 100)%nat)) as Hpage.
  { intros cur Hlim. unfold page. rewrite Hlim.
    set (all := arrange _ _).
    simpl. split.
    - intros l -> Hl. simpl.
      replace (0 <? l)%Z with true by (symmetry; by apply Z.ltb_lt).
      rewrite decide_False by lia. rewrite length_take.
      replace (Z.abs l) with l by lia. lia.
    - intros ->. cbn [default option_rect from_option].
      change (0 <? 100)%Z with true. cbn iota.
      rewrite decide_False by done. rewrite length_take.
      change (Z.to_nat (Z.abs 100)) with 100%nat. lia. }
  unfold findMany, try_catch, bind, toArray, countDocuments, take_fault,
    after_call in Hr. simpl in Hr.
  destruct (faults w) as [|f1 [|f2 fs]]; simpl in Hr;
    try destruct f1; try destruct f2; simpl in Hr; simplify_eq/=;
    apply Hpage; by repeat case_match.
Qed.

End Lifecycle.

(** ** The properties on the sample store *)

Import Sample.

Lemma value_eqb_id id v : value_eqb (id_value id) v = true ↔ v = id_value id.
Proof.
  destruct id as [h|s0], v; simpl; try (split; intros; done);
    rewrite bool_decide_eq_true; split; intros; by simplify_eq.
Qed.

Lemma equalityDriver_selects_by_id : @selects_by_id equalityDriver.
Proof.
  intros id d. simpl. unfold has_fields, by_id.
  rewrite map_to_list_singleton. simpl. rewrite andb_true_r.
  destruct (d !! "_id") as [v|]; [|by split].
  rewrite value_eqb_id. split; intros; by simplify_eq.
Qed.

Lemma create_inserts_the_parsed_document_witness :
  parse (schema nativeEngine) goodUser = ParseOk goodUser ∧
  no_fault 1 emptyWorld ∧
  (create nativeEngine goodUser emptyWorld).1
  = inr (mkCreate true
           (Some (<["_id" := VObjectId "000000000000000000000000"]> goodUser))
           (Some (VObjectId "000000000000000000000000")) None).
Proof.
  assert (no_fault 1 emptyWorld) as Hq by constructor.
  split; [reflexivity|]. split; [exact Hq|].
  exact (f_equal fst
           (proj1 (create_inserts_the_parsed_document nativeEngine goodUser
                     goodUser emptyWorld eq_refl Hq))).
Defined.

Lemma created_document_is_found_witness :
  selects_by_id ∧
  parse (schema externalEngine) goodUser = ParseOk goodUser ∧
  no_fault 2 threeUsers ∧
  selected (by_id (next_id externalEngine threeUsers)) threeUsers = [] ∧
  (exists_ externalEngine (next_id externalEngine threeUsers)
     (create externalEngine goodUser threeUsers).2).1 = inr true.
Proof.
  assert (no_fault 2 threeUsers) as Hq by constructor.
  assert (selected (by_id (next_id externalEngine threeUsers)) threeUsers = [])
    as Hnew by reflexivity.
  split; [exact equalityDriver_selects_by_id|].
  split; [reflexivity|]. split; [exact Hq|]. split; [exact Hnew|].
  exact (proj2 (created_document_is_found externalEngine goodUser goodUser
                  threeUsers equalityDriver_selects_by_id eq_refl Hq Hnew)).
Defined.

Lemma create_then_delete_restores_witness :
  no_fault 3 threeUsers ∧
  documents (deleteById externalEngine (next_id externalEngine threeUsers)
               (create externalEngine goodUser threeUsers).2).2
  = documents threeUsers.
Proof.
  assert (no_fault 3 threeUsers) as Hq by constructor.
  assert (selected (by_id (next_id externalEngine threeUsers)) threeUsers = [])
    as Hnew by reflexivity.
  split; [exact Hq|].
  exact (proj1 (proj2
    (create_then_delete_restores externalEngine goodUser goodUser threeUsers
       equalityDriver_selects_by_id eq_refl Hq Hnew))).
Defined.

Lemma unacknowledged_write_is_a_failure_witness :
  faults (faulty [Unacknowledged]) = [Unacknowledged] ∧
  validateId externalEngine (IdString "u2") (faulty [Unacknowledged])
  = (inr (IdString "u2"), faulty [Unacknowledged]) ∧
  length (calls (updateById externalEngine (IdString "u2") goodUpdate
                   (faulty [Unacknowledged])).2) = 1%nat ∧
  (create externalEngine goodUser (faulty [Unacknowledged])).1
  = inr (mkCreate false None None
           (Some "Insert operation was not acknowledged")).
Proof.
  destruct (unacknowledged_write_is_a_failure externalEngine
              (faulty [Unacknowledged]) [] eq_refl)
    as (Hcreate & Hupdate & _).
  split; [reflexivity|]. split; [reflexivity|]. split.
  - rewrite (proj2 (Hupdate (IdString "u2") (IdString "u2") goodUpdate eq_refl
                      (or_intror (ex_intro _ _ (ex_intro _ _
                         (conj eq_refl eq_refl)))))).
    reflexivity.
  - exact (Hcreate goodUser goodUser eq_refl).
Defined.

Lemma updateById_sends_the_payload_as_given_witness :
  let stamp : Doc := {["updatedBy" := VStr "schema"]} in
  let S := mkEngine users (stamping stamp) (mkOptions None "users") in
  validateId externalEngine (IdString "u2") threeUsers
  = (inr (IdString "u2"), threeUsers) ∧
  goodUpdate !! "$set" = Some (<["age" := VNum 46]> ∅) ∧
  updateById S (IdString "u2") goodUpdate threeUsers
  = updateById externalEngine (IdString "u2") goodUpdate threeUsers ∧
  calls (create S goodUser threeUsers).2
  = [(users, InsertOne (<["_id" := id_value (next_id S threeUsers)]>
                          (stamp ∪ goodUser)))].
Proof.
  destruct (updateById_sends_the_payload_as_given externalEngine
              (IdString "u2") (IdString "u2") goodUpdate
              (<["age" := VNum 46]> ∅) threeUsers eq_refl eq_refl)
    as (Hsame & Hcalls).
  split; [reflexivity|]. split; [reflexivity|]. split.
  - exact (Hsame (stamping {["updatedBy" := VStr "schema"]}) _ _
             eq_refl eq_refl).
  - exact (proj2 (Hcalls {["updatedBy" := VStr "schema"]} goodUser)).
Defined.

Lemma store_exception_becomes_a_failure_witness :
  let down := faulty [Throw (ErrorObj "connection closed")] in
  faults down = [Throw (ErrorObj "connection closed")] ∧
  (findMany externalEngine ∅ (mkFindMany None None ∅) down).1
  = inr (mkFindManyResult false [] 0 (Some "connection closed")) ∧
  parse (schema externalEngine) goodUser = ParseOk goodUser ∧
  (create externalEngine goodUser down).1
  = inr (mkCreate false None None (Some "connection closed")).
Proof.
  destruct (store_exception_becomes_a_failure externalEngine
              (faulty [Throw (ErrorObj "connection closed")])
              (ErrorObj "connection closed") [] eq_refl)
    as (Hcreate & _ & Hmany & _).
  split; [reflexivity|].
  split; [exact (Hmany ∅ (mkFindMany None None ∅))|].
  split; [reflexivity|].
  exact (Hcreate goodUser goodUser eq_refl).
Defined.

Lemma later_exception_hides_the_first_call_witness :
  let late := faulty [NoFault; Throw (ErrorObj "connection closed")] in
  lets_through NoFault ∧
  faults late = [NoFault; Throw (ErrorObj "connection closed")] ∧
  (findMany externalEngine ∅ (mkFindMany None None ∅) late).1
  = inr (mkFindManyResult false [] 0 (Some "connection closed")) ∧
  (updateById externalEngine (IdString "u2") goodUpdate late).1
  = inr (mkUpdate false None 0 (Some "connection closed")) ∧
  (λ d, d !! "age")
    <$> documents (updateById externalEngine (IdString "u2") goodUpdate late).2
  = [Some (VNum 36); Some (VNum 46); Some (VNum 72)].
Proof.
  destruct (later_exception_hides_the_first_call externalEngine
              (faulty [NoFault; Throw (ErrorObj "connection closed")])
              (ErrorObj "connection closed") []) as (Hmany & Hupdate).
  assert (lets_through NoFault) as Hlet by exact I.
  split; [exact Hlet|]. split; [reflexivity|].
  split; [exact (Hmany NoFault ∅ (mkFindMany None None ∅) Hlet eq_refl)|].
  destruct (Hupdate (IdString "u2") (IdString "u2") goodUpdate eq_refl eq_refl
              (or_intror (ex_intro _ _ (ex_intro _ _ (conj eq_refl eq_refl)))))
    as (Hfail & _ & Hdocs).
  split; [exact Hfail|]. rewrite Hdocs. reflexivity.
Defined.

Lemma exists_and_count_never_throw_witness :
  no_throw 1 threeUsers ∧
  (count externalEngine ∅ threeUsers).1 = inr 3%nat ∧
  (exists_ externalEngine (IdString "u2") threeUsers).1 = inr true ∧
  (exists_ externalEngine (IdString "u2")
     (faulty [Throw (ErrorObj "connection closed")])).1 = inr false ∧
  exists_ nativeEngine (IdString "u2") threeUsers = (inr false, threeUsers).
Proof.
  assert (no_throw 1 threeUsers) as Hq by constructor.
  destruct (exists_and_count_never_throw externalEngine threeUsers)
    as (_ & _ & Hquiet & _ & _).
  destruct (Hquiet Hq) as (Hexists & Hcount).
  split; [exact Hq|]. split; [exact (Hcount ∅)|].
  split; [exact (Hexists (IdString "u2") (IdString "u2") eq_refl)|].
  split.
  - destruct (exists_and_count_never_throw externalEngine
                (faulty [Throw (ErrorObj "connection closed")]))
      as (_ & _ & _ & Hdown & _).
    exact (proj1 (Hdown _ _ eq_refl) (IdString "u2")).
  - destruct (exists_and_count_never_throw nativeEngine threeUsers)
      as (_ & _ & _ & _ & Hbad).
    exact (Hbad "u2" eq_refl eq_refl).
Defined.

Lemma findMany_page_is_bounded_witness :
  ∃ r, (findMany externalEngine ∅ (mkFindMany (Some 2%Z) None ∅) threeUsers).1
       = inr r ∧
       fm_success r = true ∧
       (length (fm_data r) ≤ 2)%nat.
Proof.
  eexists. split; [reflexivity|]. split; [reflexivity|].
  destruct (findMany_page_is_bounded externalEngine ∅
              (mkFindMany (Some 2%Z) None ∅) threeUsers _ eq_refl eq_refl)
    as (Hlimit & _).
  exact (Hlimit 2%Z eq_refl eq_refl).
Defined.

End LifecycleFacts.
